(** * taahAI: the conversation client of [src/App.js]

    A shallow embedding of the logic of the single React component [App]:
    the session identifier, the reply extraction, the Markdown rendering
    with its escaped fallback, the [sendMessage] state machine and the
    keyboard and quick-prompt handlers.

    Conventions of the embedding.
    - A JavaScript string is the list of its UTF-16 code units ([jsstring]);
      literals are written [js "..."].
    - A computation that may throw returns a [completion]: [Normal v] or
      [Throw err], where [err] carries the [message] of the thrown Error.
    - React state is the record [State]; a handler reads the values captured
      by the render it was created in (its [snap] argument) and issues
      [Update]s, which React applies in order to the current state.
    - Platform functions that are not code of the repository ([JSON.parse],
      [JSON.stringify], [marked.parse], [DOMPurify.sanitize], the random
      sources) are arguments of the definitions that call them. *)

From Stdlib Require Import Ascii String.
From Stdlib Require Import List Bool Arith NArith ZArith QArith Qround Lia.
From Stdlib Require DecimalString HexadecimalString.
Import ListNotations.

Set Implicit Arguments.
Set Warnings "-register-all".

(* ================================================================== *)
(** ** JavaScript strings *)

Module JsString.

(** A UTF-16 code unit. *)
Definition unit16 := N.

Definition jsstring := list unit16.

(** The string literal [s] as a JavaScript string (ASCII literals only). *)
Definition js (s : string) : jsstring :=
  map N_of_ascii (list_ascii_of_string s).
Arguments js s%_string.

Fixpoint eqb (a b : jsstring) : bool :=
  match a, b with
  | [], [] => true
  | x :: a', y :: b' => N.eqb x y && eqb a' b'
  | _, _ => false
  end.

(** [prefix p s]: [s] starts with [p]. *)
Fixpoint prefix (p s : jsstring) : bool :=
  match p, s with
  | [], _ => true
  | x :: p', y :: s' => N.eqb x y && prefix p' s'
  | _ :: _, [] => false
  end.

(** [String.prototype.includes]: [p] occurs in [s] at some position. *)
Fixpoint includes (s p : jsstring) : bool :=
  prefix p s ||
  match s with
  | [] => false
  | _ :: s' => includes s' p
  end.

(** ECMAScript WhiteSpace and LineTerminator code units, the characters
    [String.prototype.trim] strips. *)
Definition is_white_space (c : unit16) : bool :=
  (N.leb 0x9 c && N.leb c 0xD)
  || N.eqb c 0x20 || N.eqb c 0xA0 || N.eqb c 0x1680
  || (N.leb 0x2000 c && N.leb c 0x200A)
  || N.eqb c 0x2028 || N.eqb c 0x2029 || N.eqb c 0x202F
  || N.eqb c 0x205F || N.eqb c 0x3000 || N.eqb c 0xFEFF.

Fixpoint trimStart (s : jsstring) : jsstring :=
  match s with
  | c :: s' => if is_white_space c then trimStart s' else s
  | [] => []
  end.

Definition trimEnd (s : jsstring) : jsstring := rev (trimStart (rev s)).

(** [String.prototype.trim]. *)
Definition trim (s : jsstring) : jsstring := trimEnd (trimStart s).

(** [s.replaceAll(c, r)] for a pattern of one code unit [c] and a
    replacement [r] without [$] (the only use in the source). *)
Definition replaceAll (c : unit16) (r : jsstring) (s : jsstring) : jsstring :=
  flat_map (fun x => if N.eqb x c then r else [x]) s.

(** [s.slice(a, b)] and [s.slice(a)] for non-negative indices. *)
Definition slice (a b : nat) (s : jsstring) : jsstring :=
  firstn (b - a) (skipn a s).
Definition slice_from (a : nat) (s : jsstring) : jsstring := skipn a s.

(** [s.padStart(n, pad)] for a filler [pad] of one code unit. *)
Definition padStart (n : nat) (pad : unit16) (s : jsstring) : jsstring :=
  repeat pad (n - length s) ++ s.

(** Decimal rendering of a non-negative integer, as a template literal
    renders a Number that holds one. *)
Definition of_N (n : N) : jsstring :=
  js (DecimalString.NilZero.string_of_uint (N.to_uint n)).

End JsString.
Import JsString.
Arguments js s%_string.
Arguments replaceAll c%_N r s.
Arguments padStart n%_nat pad%_N s.
Close Scope Q_scope.

(* ================================================================== *)
(** ** Completions: values and thrown errors *)

(** A thrown JavaScript Error; only its [message] is ever read. *)
Record Error := mkError { message : jsstring }.

Inductive completion (A : Type) : Type :=
| Normal (a : A)
| Throw (err : Error).
Arguments Normal {A} a.
Arguments Throw {A} err.

Definition bind {A B} (c : completion A) (k : A -> completion B) : completion B :=
  match c with
  | Normal a => k a
  | Throw e => Throw e
  end.

(** [try { body } catch (err) { handler err }]. *)
Definition try_catch {A} (body : completion A)
    (handler : Error -> completion A) : completion A :=
  match body with
  | Normal a => Normal a
  | Throw e => handler e
  end.

Declare Scope js_scope.
Delimit Scope js_scope with js.
Notation "x <- c ;; k" := (bind c (fun x => k))
  (at level 61, c at next level, right associativity) : js_scope.
Open Scope js_scope.

(* ================================================================== *)
(** ** JSON values and the reply extraction ([extractText]) *)

(** A value produced by [JSON.parse] / [response.json()].  An object is the
    list of its own properties in insertion order. *)
Inductive JSONValue : Type :=
| JNull
| JBool (b : bool)
| JNumber (q : Q)
| JString (s : jsstring)
| JArray (items : list JSONValue)
| JObject (props : list (jsstring * JSONValue)).

Module Extractor.

(** [typeof val === "string"] together with the string it then is. *)
Definition as_string (val : JSONValue) : option jsstring :=
  match val with
  | JString s => Some s
  | _ => None
  end.

(** [val && typeof val === "object"]: objects and arrays; [null] is falsy. *)
Definition is_object (val : JSONValue) : bool :=
  match val with
  | JArray _ | JObject _ => true
  | _ => false
  end.

Fixpoint assoc (k : jsstring) (props : list (jsstring * JSONValue))
  : option JSONValue :=
  match props with
  | [] => None
  | (k', v) :: rest => if JsString.eqb k k' then Some v else assoc k rest
  end.

(** [val[k]] for a property name [k] that is neither an array index nor
    [length] nor inherited (true of every name in [keys]); [None] is
    [undefined]. *)
Definition get (val : JSONValue) (k : jsstring) : option JSONValue :=
  match val with
  | JObject props => assoc k props
  | _ => None
  end.

Definition keys : list jsstring :=
  [js "output"; js "reply"; js "message"; js "content"; js "text"; js "result"].

(** [for (const k of keys) if (typeof val[k] === "string") return val[k]]. *)
Fixpoint scan (val : JSONValue) (ks : list jsstring) : option jsstring :=
  match ks with
  | [] => None
  | k :: ks' =>
      match get val k with
      | Some (JString s) => Some s
      | _ => scan val ks'
      end
  end.

(** [extractText]; [None] is [undefined]. *)
Fixpoint extractText (val : JSONValue) : option jsstring :=
  match as_string val with
  | Some s => Some s
  | None =>
      match val with
      | JArray (first :: _) => extractText first
      | _ => if is_object val then scan val keys else None
      end
  end.

(** The extraction rule in the words of the specification: a match over
    the four shapes of payload. *)
Fixpoint first_string_under (ks : list jsstring)
    (props : list (jsstring * JSONValue)) : option jsstring :=
  match ks with
  | [] => None
  | k :: ks' =>
      match assoc k props with
      | Some (JString s) => Some s
      | _ => first_string_under ks' props
      end
  end.

Fixpoint extract_spec (payload : JSONValue) : option jsstring :=
  match payload with
  | JString s => Some s
  | JArray (first :: _) => extract_spec first
  | JObject props =>
      first_string_under
        [js "output"; js "reply"; js "message"; js "content"; js "text";
         js "result"] props
  | _ => None
  end.

(** [k] is the first of [ks] under which [props] holds a string, and
    that string is [s]. *)
Definition first_string_key (ks : list jsstring)
    (props : list (jsstring * JSONValue)) (s : jsstring) : Prop :=
  exists before k after,
    ks = before ++ k :: after /\
    assoc k props = Some (JString s) /\
    forall k', In k' before ->
      forall s', assoc k' props <> Some (JString s').

End Extractor.

(* ================================================================== *)
(** ** The session identifier ([sessionId]) *)

Module Identity.

(** What [window.crypto] offers when the component mounts, with the
    values the chosen source then delivers. *)
Inductive RandomSource : Type :=
| NativeRandomUUID (uuid : jsstring)
| GetRandomValues (fill : nat -> Z)
| MathRandom (draw : nat -> Q).
(** [NativeRandomUUID uuid]: [crypto.randomUUID] is a function and returns
    [uuid].  [GetRandomValues fill]: only [crypto.getRandomValues] exists
    and writes [fill i] at index [i].  [MathRandom draw]: neither exists
    and the [i]-th call of [Math.random()] returns [draw i]. *)

(** Conversion of a Number to an element of a [Uint8Array]. *)
Definition ToUint8 (v : Z) : Z := v mod 256.

(** [bytes[i] = v] on a [Uint8Array]; a store out of range is ignored. *)
Fixpoint store (i : nat) (v : Z) (bytes : list Z) : list Z :=
  match bytes, i with
  | [], _ => []
  | _ :: rest, O => ToUint8 v :: rest
  | b :: rest, S i' => b :: store i' v rest
  end.

(** [bytes[i]] for an index in range. *)
Definition load (i : nat) (bytes : list Z) : Z := nth i bytes 0%Z.

(** [new Uint8Array(16)]. *)
Definition new_Uint8Array (n : nat) : list Z := repeat 0%Z n.

(** [crypto.getRandomValues(bytes)]: every element is overwritten. *)
Definition getRandomValues (fill : nat -> Z) (bytes : list Z) : list Z :=
  map (fun i => ToUint8 (fill i)) (seq 0 (length bytes)).

(** [for (let i = 0; i < 16; i += 1) bytes[i] = Math.floor(Math.random() * 256)]. *)
Definition fill_with_Math_random (draw : nat -> Q) (bytes : list Z) : list Z :=
  fold_left (fun acc i => store i (Qfloor (draw i * 256)%Q) acc) (seq 0 16) bytes.

Definition hex_digits (d : Hexadecimal.uint) : jsstring :=
  js (HexadecimalString.NilZero.string_of_uint d).

(** [n.toString(16)] for a non-negative integer [n]. *)
Definition toString16 (n : Z) : jsstring := hex_digits (N.to_hex_uint (Z.to_N n)).

Definition toHex (n : Z) : jsstring := padStart 2 0x30 (toString16 n).

Definition format (bytes : list Z) : jsstring :=
  let hex := concat (map toHex bytes) in
  slice 0 8 hex ++ js "-" ++ slice 8 12 hex ++ js "-" ++ slice 12 16 hex
    ++ js "-" ++ slice 16 20 hex ++ js "-" ++ slice_from 20 hex.

Definition sessionId (src : RandomSource) : jsstring :=
  match src with
  | NativeRandomUUID uuid => uuid
  | GetRandomValues _ | MathRandom _ =>
      let bytes := new_Uint8Array 16 in
      let bytes :=
        match src with
        | GetRandomValues fill => getRandomValues fill bytes
        | MathRandom draw => fill_with_Math_random draw bytes
        | NativeRandomUUID _ => bytes
        end in
      let bytes := store 6 (Z.lor (Z.land (load 6 bytes) 0x0f) 0x40) bytes in
      let bytes := store 8 (Z.lor (Z.land (load 8 bytes) 0x3f) 0x80) bytes in
      format bytes
  end.

(** The pattern [xxxxxxxx-xxxx-4xxx-yxxx-xxxxxxxxxxxx]. *)
Definition is_hex (c : unit16) : bool :=
  (N.leb 0x30 c && N.leb c 0x39) || (N.leb 0x61 c && N.leb c 0x66).
Definition is_dash (c : unit16) : bool := N.eqb c 0x2D.
Definition is_four (c : unit16) : bool := N.eqb c 0x34.
Definition is_variant (c : unit16) : bool :=
  N.eqb c 0x38 || N.eqb c 0x39 || N.eqb c 0x61 || N.eqb c 0x62.

Definition pattern : list (unit16 -> bool) :=
  repeat is_hex 8 ++ [is_dash] ++ repeat is_hex 4 ++ [is_dash]
    ++ [is_four] ++ repeat is_hex 3 ++ [is_dash]
    ++ [is_variant] ++ repeat is_hex 3 ++ [is_dash] ++ repeat is_hex 12.

Fixpoint matches (pat : list (unit16 -> bool)) (s : jsstring) : bool :=
  match pat, s with
  | [], [] => true
  | p :: pat', c :: s' => p c && matches pat' s'
  | _, _ => false
  end.

Definition is_uuid_v4 (s : jsstring) : bool := matches pattern s.

(** What the platform promises of [crypto.randomUUID]; the two fallbacks
    promise nothing about the values they deliver. *)
Definition conforms (src : RandomSource) : Prop :=
  match src with
  | NativeRandomUUID uuid => is_uuid_v4 uuid = true
  | _ => True
  end.

(** Checks on one array element, run over all 256 values in the proofs:
    the shape of its two hexadecimal digits, and the effect of the two
    masks. *)
Definition digits_ok (b : Z) : bool :=
  match toHex b with
  | [h; l] =>
      is_hex h && is_hex l
      && (if Z.eqb (Z.land b 0xf0) 0x40 then is_four h else true)
      && (if Z.eqb (Z.land b 0xc0) 0x80 then is_variant h else true)
  | _ => false
  end.

Definition masks_ok (b : Z) : bool :=
  let v := Z.lor (Z.land b 0x0f) 0x40 in
  let w := Z.lor (Z.land b 0x3f) 0x80 in
  Z.eqb (ToUint8 v) v && Z.eqb (Z.land v 0xf0) 0x40
  && Z.eqb (ToUint8 w) w && Z.eqb (Z.land w 0xc0) 0x80.

End Identity.

(* ================================================================== *)
(** ** The render pipeline ([renderMarkdown]) *)

Module Render.

(** The two optional libraries: the ready flags set by the script [load]
    listeners, and the globals the scripts define. *)
Record Capabilities := {
  markedReady : bool;
  window_marked : option (jsstring -> completion jsstring);
  purifyReady : bool;
  window_DOMPurify : option (jsstring -> completion jsstring)
}.

Definition escapeHtml (raw : jsstring) : jsstring :=
  replaceAll 0x27 (js "&#039;")
    (replaceAll 0x22 (js "&quot;")
      (replaceAll 0x3E (js "&gt;")
        (replaceAll 0x3C (js "&lt;")
          (replaceAll 0x26 (js "&amp;") raw)))).

(** The template literal [<pre>\n${escapeHtml(mdText)}\n</pre>]. *)
Definition preformatted (mdText : jsstring) : jsstring :=
  js "<pre>" ++ [0x0A%N] ++ escapeHtml mdText ++ [0x0A%N] ++ js "</pre>".

(** [renderMarkdown]; the result is the [__html] field of the object
    returned. *)
Definition renderMarkdown (caps : Capabilities) (mdText : jsstring)
  : completion jsstring :=
  try_catch
    (parsed <-
       match markedReady caps, window_marked caps with
       | true, Some marked_parse => marked_parse mdText
       | _, _ => Normal (preformatted mdText)
       end ;;
     sanitized <-
       match purifyReady caps, window_DOMPurify caps with
       | true, Some sanitize => sanitize parsed
       | _, _ => Normal parsed
       end ;;
     Normal sanitized)
    (fun _err => Normal (preformatted mdText)).

(** The escaping in the words of the specification: each of the five
    HTML-significant characters is replaced by its entity. *)
Definition entity (c : unit16) : jsstring :=
  if N.eqb c 0x26 then js "&amp;"
  else if N.eqb c 0x3C then js "&lt;"
  else if N.eqb c 0x3E then js "&gt;"
  else if N.eqb c 0x22 then js "&quot;"
  else if N.eqb c 0x27 then js "&#039;"
  else [c].

Definition escaped (raw : jsstring) : jsstring := flat_map entity raw.

Definition formatting_available (caps : Capabilities) : bool :=
  markedReady caps &&
  match window_marked caps with Some _ => true | None => false end.

Definition sanitizer_available (caps : Capabilities) : bool :=
  purifyReady caps &&
  match window_DOMPurify caps with Some _ => true | None => false end.

(** The five replacements applied to one code unit. *)
Definition escape_unit (c : unit16) : jsstring := escapeHtml [c].

(** *** Sample capabilities *)

(** A sanitizer that changes its input: an HTML round trip, in which the
    parser ignores a line feed that follows the start tag of [pre]. *)
Definition reserialize (html : jsstring) : completion jsstring :=
  if prefix (js "<pre>" ++ [0x0A%N]) html
  then Normal (js "<pre>" ++ skipn 6 html)
  else Normal html.

Definition purify_only : Capabilities :=
  {| markedReady := false; window_marked := None;
     purifyReady := true; window_DOMPurify := Some reserialize |}.

Definition no_capabilities : Capabilities :=
  {| markedReady := false; window_marked := None;
     purifyReady := false; window_DOMPurify := None |}.

Definition failing_marked : Capabilities :=
  {| markedReady := true;
     window_marked := Some (fun _ => Throw (mkError (js "marked failed")));
     purifyReady := true; window_DOMPurify := Some reserialize |}.

End Render.

(* ================================================================== *)
(** ** The conversation state and [sendMessage] *)

Module Conversation.
Import Extractor.

Inductive Role : Type := user | assistant.

Record Message := { role : Role; content : jsstring }.

(** The four [useState] cells the handlers touch. *)
Record State := {
  messages : list Message;
  input : jsstring;
  loading : bool;
  errorText : jsstring
}.

Definition initial : State :=
  {| messages := []; input := []; loading := false; errorText := [] |}.

(** A call of a state setter.  [AppendMessage m] is the functional
    update [setMessages((prev) => [...prev, m])]. *)
Inductive Update : Type :=
| SetMessages (next : list Message)
| AppendMessage (m : Message)
| SetInput (text : jsstring)
| SetLoading (flag : bool)
| SetErrorText (text : jsstring).

Definition apply_update (st : State) (u : Update) : State :=
  match u with
  | SetMessages next =>
      {| messages := next; input := input st;
         loading := loading st; errorText := errorText st |}
  | AppendMessage m =>
      {| messages := messages st ++ [m]; input := input st;
         loading := loading st; errorText := errorText st |}
  | SetInput text =>
      {| messages := messages st; input := text;
         loading := loading st; errorText := errorText st |}
  | SetLoading flag =>
      {| messages := messages st; input := input st;
         loading := flag; errorText := errorText st |}
  | SetErrorText text =>
      {| messages := messages st; input := input st;
         loading := loading st; errorText := text |}
  end.

Definition apply_updates (us : list Update) (st : State) : State :=
  fold_left apply_update us st.

(** The argument of [fetch]. *)
Record Request := {
  url : jsstring;
  method : jsstring;
  headers : list (jsstring * jsstring);
  body : jsstring
}.

(** The [Response] that [fetch] resolves to.  [payload] is what reading
    the body yields: its text, or the rejection of the read. *)
Record Response := {
  status : N;
  statusText : jsstring;
  content_type : option jsstring;
  payload : completion jsstring
}.

(** [response.ok]: the status is in the range 200-299. *)
Definition ok (response : Response) : bool :=
  N.leb 200 (status response) && N.leb (status response) 299.

(** How the awaited [fetch] settles. *)
Inductive FetchOutcome : Type :=
| Rejected (err : Error)
| Resolved (response : Response).

(** What one call of a handler does before it returns or suspends: the
    setter calls in order, and the request it sent, if any. *)
Record Effects := {
  updates : list Update;
  request : option Request
}.

Definition nothing : Effects := {| updates := []; request := None |}.

Definition apology : jsstring := js "Sorry, I could not reach the API. ".

(** [typeof overrideText === "string" ? overrideText : input];
    [overrideText] is [Some t] when the argument is a string. *)
Definition textSource (snap : State) (overrideText : option jsstring)
  : jsstring :=
  match overrideText with
  | Some t => t
  | None => input snap
  end.

Section WithPlatform.

Variable API_URL : jsstring.
Variable sessionId : jsstring.
(** [JSON.parse], which throws a SyntaxError on malformed text, and
    [JSON.stringify] on a JSON value. *)
Variable JSON_parse : jsstring -> completion JSONValue.
Variable JSON_stringify : JSONValue -> jsstring.

Definition response_json (response : Response) : completion JSONValue :=
  raw <- payload response ;; JSON_parse raw.

Definition response_text (response : Response) : completion jsstring :=
  payload response.

(** The part of the [try] block between the [fetch] and the append:
    the value of [markdownReply], or the error thrown on the way.
    ([String(markdownReply)] leaves that string as it is.) *)
Definition markdownReply (response : Response) : completion jsstring :=
  if negb (ok response) then
    let hint := of_N (status response) ++ js " " ++ statusText response in
    Throw (mkError (js "Request failed (" ++ hint ++ js ")"))
  else
    let contentType :=
      match content_type response with
      | Some c => c
      | None => []
      end in
    if includes contentType (js "application/json") then
      data <- response_json response ;;
      match extractText data with
      | Some s => Normal s
      | None => Normal (JSON_stringify data)
      end
    else
      raw <- response_text response ;;
      try_catch
        (maybe <- JSON_parse raw ;;
         match extractText maybe with
         | Some picked => Normal picked
         | None => Normal raw
         end)
        (fun _e => Normal raw).

(** [sendMessage] from the point where the awaited [fetch] settles:
    the [try] block, the [catch] and the [finally].  Every setter call
    comes after the last [await], so they are issued together. *)
Definition sendMessage_settled (outcome : FetchOutcome) : list Update :=
  match
    response <- match outcome with
                | Rejected err => Throw err
                | Resolved r => Normal r
                end ;;
    reply <- markdownReply response ;;
    Normal [AppendMessage {| role := assistant; content := reply |}]
  with
  | Normal us => us
  | Throw err =>
      let friendly := apology ++ message err in
      [AppendMessage {| role := assistant; content := friendly |};
       SetErrorText friendly]
  end
  ++ [SetLoading false].

(** [sendMessage] up to the [await fetch(...)].  [snap] holds the values
    of [messages], [input] and [loading] captured by the render that
    created the handler. *)
Definition sendMessage (snap : State) (overrideText : option jsstring)
  : Effects :=
  let text := trim (textSource snap overrideText) in
  if Nat.eqb (length text) 0 || loading snap then nothing
  else
    let nextMessages :=
      messages snap ++ [{| role := user; content := text |}] in
    let payload :=
      JObject [(js "session", JString sessionId);
               (js "message", JString text)] in
    {| updates := [SetErrorText []; SetLoading true;
                   SetMessages nextMessages; SetInput []];
       request := Some {| url := API_URL;
                          method := js "POST";
                          headers := [(js "Content-Type",
                                       js "application/json")];
                          body := JSON_stringify payload |} |}.

(** [quickSend]. *)
Definition quickSend (snap : State) (text : jsstring) : Effects :=
  if loading snap then nothing
  else
    let sent := sendMessage snap (Some text) in
    {| updates := SetInput text :: updates sent;
       request := request sent |}.

(** The fields of a keyboard event that matter here. *)
Record KeyboardEvent := {
  key : jsstring;
  shiftKey : bool;
  ctrlKey : bool;
  altKey : bool;
  metaKey : bool
}.

(** [onKeyDown] of the text area: whether [preventDefault] was called,
    and the effects of the [sendMessage()] it starts. *)
Definition onKeyDown (snap : State) (e : KeyboardEvent) : bool * Effects :=
  if JsString.eqb (key e) (js "Enter") && negb (shiftKey e)
  then (true, sendMessage snap None)
  else (false, nothing).

(** The [onKeyDown] of a suggested prompt [it]. *)
Definition onKeyDown_prompt (snap : State) (it : jsstring)
    (e : KeyboardEvent) : Effects :=
  if JsString.eqb (key e) (js "Enter") || JsString.eqb (key e) (js " ")
  then quickSend snap it
  else nothing.

(** *** The component as a transition system

    React re-renders after every event, so a handler always sees the
    current state.  [in_flight] lists the requests whose [fetch] has
    not settled yet, oldest first. *)
Record Engine := {
  ui : State;
  in_flight : list Request
}.

Definition boot : Engine := {| ui := initial; in_flight := [] |}.

Inductive Event : Type :=
| Change (value : jsstring)           (** [onChange] of the text area *)
| KeyDown (e : KeyboardEvent)         (** [onKeyDown] of the text area *)
| ClickSend                           (** [onClick] of the send button *)
| ClickPrompt (it : jsstring)         (** [onClick] of a suggestion *)
| KeyDownPrompt (it : jsstring) (e : KeyboardEvent)
| Settled (outcome : FetchOutcome).   (** the oldest call settles *)

Definition perform (eng : Engine) (fx : Effects) : Engine :=
  {| ui := apply_updates (updates fx) (ui eng);
     in_flight := in_flight eng ++
                  match request fx with
                  | Some r => [r]
                  | None => []
                  end |}.

Definition step (eng : Engine) (ev : Event) : Engine :=
  match ev with
  | Change value =>
      perform eng {| updates := [SetInput value]; request := None |}
  | KeyDown e => perform eng (snd (onKeyDown (ui eng) e))
  | ClickSend => perform eng (sendMessage (ui eng) None)
  | ClickPrompt it => perform eng (quickSend (ui eng) it)
  | KeyDownPrompt it e => perform eng (onKeyDown_prompt (ui eng) it e)
  | Settled outcome =>
      match in_flight eng with
      | [] => eng
      | _ :: rest =>
          {| ui := apply_updates (sendMessage_settled outcome) (ui eng);
             in_flight := rest |}
      end
  end.

Definition run (eng : Engine) (evs : list Event) : Engine :=
  fold_left step evs eng.

Definition is_settled (ev : Event) : bool :=
  match ev with
  | Settled _ => true
  | _ => false
  end.

(** [submit eng overrideText]: a call of [sendMessage] in state [eng]. *)
Definition submit (eng : Engine) (overrideText : option jsstring) : Engine :=
  perform eng (sendMessage (ui eng) overrideText).

Inductive reachable : Engine -> Prop :=
| reachable_boot : reachable boot
| reachable_step eng ev : reachable eng -> reachable (step eng ev)
| reachable_submit eng t : reachable eng -> reachable (submit eng (Some t)).


(** *** Notions used to state the properties *)

(** The request [sendMessage] posts for the trimmed text [text]. *)
Definition post (text : jsstring) : Request :=
  {| url := API_URL;
     method := js "POST";
     headers := [(js "Content-Type", js "application/json")];
     body := JSON_stringify
               (JObject [(js "session", JString sessionId);
                         (js "message", JString text)]) |}.

(** One call is in flight exactly when [loading] is set. *)
Definition slot_invariant (eng : Engine) : Prop :=
  length (in_flight eng) = if loading (ui eng) then 1 else 0.

(** The ways a dispatched call fails, each with the detail the thrown
    error carries in its [message]. *)
Inductive failure : FetchOutcome -> jsstring -> Prop :=
| network_error err :
    failure (Rejected err) (message err)
| bad_status r :
    ok r = false ->
    failure (Resolved r)
      (js "Request failed ("
         ++ (of_N (status r) ++ js " " ++ statusText r) ++ js ")")
| unreadable_body r err :
    ok r = true ->
    payload r = Throw err ->
    failure (Resolved r) (message err)
| unparsable_json r declared raw err :
    ok r = true ->
    content_type r = Some declared ->
    includes declared (js "application/json") = true ->
    payload r = Normal raw ->
    JSON_parse raw = Throw err ->
    failure (Resolved r) (message err).

(** Some modifier key is held. *)
Definition has_modifier (e : KeyboardEvent) : bool :=
  shiftKey e || ctrlKey e || altKey e || metaKey e.

End WithPlatform.

(** The nine suggested prompts, in display order. *)
Definition suggestedPrompts : list (jsstring * list jsstring) :=
  [ (js "General & High-Level",
     [ js "Can you give me a brief overview of your professional experience?";
       js "Tell me about yourself and your background.";
       js "What are your key technical skills?" ]);
    (js "Project Deep Dives",
     [ js "Can you walk me through a project you're particularly proud of?";
       js "Tell me about the most technically challenging project you've worked on.";
       js "What was the business impact or result working at recent company?" ]);
    (js "Behavioral & Career Goals",
     [ js "What are you looking for in your next role?";
       js "What kind of team environment do you thrive in?";
       js "How do you handle tight deadlines or high-pressure situations?" ]) ].

End Conversation.

(* ================================================================== *)
(** ** A sample platform

    Stand-ins for the platform functions and a few states, responses and
    events, at which the properties below are evaluated. *)

Module Demo.
Import Extractor Conversation.

Definition quote : jsstring := [0x22%N].

Definition endpoint : jsstring := js "https://n8n.taaha.in/webhook/taahAI".

Definition session_id : jsstring := js "000f1e2d-3c4b-4a69-b887-96a5b4c3d2e1".

(** The text [{"output":"I have 5 years..."}]. *)
Definition output_text : jsstring :=
  js "{" ++ quote ++ js "output" ++ quote ++ js ":"
    ++ quote ++ js "I have 5 years..." ++ quote ++ js "}".

(** A stand-in for [JSON.parse] that knows three texts and rejects every
    other one. *)
Definition parse (raw : jsstring) : completion JSONValue :=
  if JsString.eqb raw output_text
  then Normal (JObject [(js "output", JString (js "I have 5 years..."))])
  else if JsString.eqb raw (js "[1]") then Normal (JArray [JNumber 1])
  else if JsString.eqb raw (js "null") then Normal JNull
  else Throw (mkError (js "Unexpected token")).

(** A stand-in for [JSON.stringify]: no escaping, integers only. *)
Fixpoint stringify (v : JSONValue) : jsstring :=
  match v with
  | JNull => js "null"
  | JBool true => js "true"
  | JBool false => js "false"
  | JNumber q => of_N (Z.to_N (Qfloor q))
  | JString s => quote ++ s ++ quote
  | JArray items =>
      js "["
        ++ (fix each (l : list JSONValue) : jsstring :=
              match l with
              | [] => []
              | [x] => stringify x
              | x :: l' => stringify x ++ js "," ++ each l'
              end) items
        ++ js "]"
  | JObject props =>
      js "{"
        ++ (fix each (l : list (jsstring * JSONValue)) : jsstring :=
              match l with
              | [] => []
              | [(k, x)] => quote ++ k ++ quote ++ js ":" ++ stringify x
              | (k, x) :: l' =>
                  quote ++ k ++ quote ++ js ":" ++ stringify x ++ js ","
                    ++ each l'
              end) props
        ++ js "}"
  end.

Definition typing (draft : jsstring) : Engine :=
  {| ui := {| messages := []; input := draft; loading := false;
              errorText := [] |};
     in_flight := [] |}.

Definition question : jsstring := js "Tell me about your experience".

Definition waiting : Engine :=
  submit endpoint session_id stringify (typing question) None.

Definition json_response (text : jsstring) : Response :=
  {| status := 200; statusText := js "OK";
     content_type := Some (js "application/json; charset=utf-8");
     payload := Normal text |}.

Definition text_response (text : jsstring) : Response :=
  {| status := 200; statusText := js "OK";
     content_type := Some (js "text/plain");
     payload := Normal text |}.

Definition enter (shift ctrl : bool) : KeyboardEvent :=
  {| key := js "Enter"; shiftKey := shift; ctrlKey := ctrl;
     altKey := false; metaKey := false |}.

End Demo.

(* ================================================================== *)
(** ** The rest of the component: the loader dots, the script tags and
    the rendered view *)

Module Loader.

(** The updater the interval runs every 400 ms:
    [(prev) => (prev.length >= 3 ? "" : `${prev}.`)]. *)
Definition tick (prev : jsstring) : jsstring :=
  if Nat.leb 3 (length prev) then [] else prev ++ js ".".

(** One run of the effect on [loading]: with [loading] false the dots are
    reset and no interval is started; with [loading] true the interval
    ticks [ticks] times before the clean-up clears it. *)
Definition loaderDots_effect (loading : bool) (ticks : nat) (loaderDots : jsstring)
  : jsstring :=
  if negb loading then [] else Nat.iter ticks tick loaderDots.

End Loader.

Module Scripts.

(** The listeners the effect registers for the [load] event. *)
Inductive Listener : Type :=
| ConfigureMarked   (** sets the options of [marked], then [markedReadyRef] *)
| MarkPurifyReady.  (** sets [purifyReadyRef] *)

(** A [script] element: its [src], its [async] flag and the listeners
    added for [load], oldest first. *)
Record Script := {
  src : jsstring;
  async : bool;
  load_listeners : list Listener
}.

Definition has_src (wanted : jsstring) (s : Script) : bool :=
  JsString.eqb (src s) wanted.

(** [existing.addEventListener("load", onLoad)] on the element that
    [document.querySelector] returned: the first one with that [src]. *)
Fixpoint listen_on_first (wanted : jsstring) (onLoad : Listener)
    (scripts : list Script) : list Script :=
  match scripts with
  | [] => []
  | s :: rest =>
      if has_src wanted s
      then {| src := src s; async := async s;
              load_listeners := load_listeners s ++ [onLoad] |} :: rest
      else s :: listen_on_first wanted onLoad rest
  end.

(** [addScript(src, onLoad)] on the script elements of the document, in
    document order; a new element is appended at the end of the body. *)
Definition addScript (wanted : jsstring) (onLoad : option Listener)
    (scripts : list Script) : list Script :=
  match find (has_src wanted) scripts with
  | Some _existing =>
      match onLoad with
      | Some f => listen_on_first wanted f scripts
      | None => scripts
      end
  | None =>
      scripts ++
      [{| src := wanted; async := true;
          load_listeners := match onLoad with
                            | Some f => [f]
                            | None => []
                            end |}]
  end.

Definition marked_url : jsstring :=
  js "https://cdn.jsdelivr.net/npm/marked/marked.min.js".

Definition purify_url : jsstring :=
  js "https://cdn.jsdelivr.net/npm/dompurify@3.1.6/dist/purify.min.js".

(** The effect that loads the two libraries. *)
Definition load_libraries (scripts : list Script) : list Script :=
  addScript purify_url (Some MarkPurifyReady)
    (addScript marked_url (Some ConfigureMarked) scripts).

(** How many script elements carry the [src] [wanted]. *)
Definition count_src (wanted : jsstring) (scripts : list Script) : nat :=
  length (filter (has_src wanted) scripts).

End Scripts.

Module View.
Import Conversation.

(** [messages.length === 0]: the welcome screen with the suggested
    prompts is rendered instead of the conversation. *)
Definition hero_shown (st : State) : bool :=
  Nat.eqb (length (messages st)) 0.

(** The [disabled] attribute of the send button (both screens). *)
Definition send_disabled (st : State) : bool :=
  loading st || Nat.eqb (length (trim (input st))) 0.

(** The text of the bubble the conversation screen adds below the log
    while [loading], if any. *)
Definition thinking_bubble (st : State) (loaderDots : jsstring)
  : option jsstring :=
  if hero_shown st then None
  else if loading st then Some (js "Thinking" ++ loaderDots)
  else None.

(** [errorText ? <div>{errorText}</div> : null] (both screens). *)
Definition error_banner (st : State) : option jsstring :=
  match errorText st with
  | [] => None
  | text => Some text
  end.

(** The [placeholder] of the text area. *)
Definition placeholder (st : State) : jsstring :=
  if hero_shown st then js "Ask anything"
  else if loading st then js "Waiting for reply..."
  else js "Message taahAI".

End View.

Module Markup.

(** One of the five characters [escapeHtml] replaces. *)
Definition is_special (c : unit16) : bool :=
  N.eqb c 0x26 || N.eqb c 0x3C || N.eqb c 0x3E || N.eqb c 0x22 || N.eqb c 0x27.

(** A character that opens or closes a tag or an attribute value:
    [<], [>], the double quote or the apostrophe. *)
Definition is_delimiter (c : unit16) : bool :=
  N.eqb c 0x3C || N.eqb c 0x3E || N.eqb c 0x22 || N.eqb c 0x27.

(** Reads back the first character of an escaped text, with the rest of
    the text; used to show that escaping loses nothing. *)
Definition read_entity (s : jsstring) : option (unit16 * jsstring) :=
  match s with
  | [] => None
  | c :: rest =>
      if negb (N.eqb c 0x26) then Some (c, rest)
      else if prefix (js "amp;") rest then Some (0x26%N, skipn 4 rest)
      else if prefix (js "lt;") rest then Some (0x3C%N, skipn 3 rest)
      else if prefix (js "gt;") rest then Some (0x3E%N, skipn 3 rest)
      else if prefix (js "quot;") rest then Some (0x22%N, skipn 5 rest)
      else if prefix (js "#039;") rest then Some (0x27%N, skipn 5 rest)
      else None
  end.

(** [payload] as the first element of an array, itself the first element
    of an array, and so on: one array per entry of [levels], whose entry
    lists the elements that follow the first. *)
Fixpoint nest (levels : list (list JSONValue)) (payload : JSONValue)
  : JSONValue :=
  match levels with
  | [] => payload
  | following :: outer => JArray (nest outer payload :: following)
  end.

End Markup.

Module Hex.
Import Identity.

(** The value of a lower-case hexadecimal digit. *)
Definition digit_value (c : unit16) : Z :=
  if N.leb c 0x39 then Z.of_N c - 0x30 else Z.of_N c - 0x61 + 10.

(** Reads an array element back from the two digits [toHex] wrote. *)
Definition byte_of_hex (s : jsstring) : Z :=
  match s with
  | [h; l] => 16 * digit_value h + digit_value l
  | _ => -1
  end.

(** Checks run over all 256 values of an element: the digits read back
    give the element, and the masked elements keep the bits the masks
    let through. *)
Definition reads_back (b : Z) : bool := Z.eqb (byte_of_hex (toHex b)) b.

Definition keeps_bits (b : Z) : bool :=
  Z.eqb (Z.land (ToUint8 (Z.lor (Z.land b 0x0f) 0x40)) 0x0f) (Z.land b 0x0f)
  && Z.eqb (Z.land (ToUint8 (Z.lor (Z.land b 0x3f) 0x80)) 0x3f) (Z.land b 0x3f).

Definition is_byte (b : Z) : Prop := (0 <= b < 256)%Z.

End Hex.

Module Log.
Import Conversation.

(** The role a strictly alternating log has at index [i]. *)
Definition role_at (i : nat) : Role :=
  if Nat.even i then user else assistant.

Definition alternating (log : list Message) : Prop :=
  forall i m, nth_error log i = Some m -> role m = role_at i.

(** A text that is not empty and neither begins nor ends with white
    space. *)
Definition trimmed (s : jsstring) : Prop :=
  match s with
  | [] => False
  | c :: _ => is_white_space c = false /\ is_white_space (last s c) = false
  end.

Section WithPlatform.

Variable API_URL : jsstring.
Variable sessionId : jsstring.
Variable JSON_parse : jsstring -> completion JSONValue.
Variable JSON_stringify : JSONValue -> jsstring.

(** What one event can do to the engine: leave the log, the flags and
    the calls in flight alone; dispatch the trimmed text of [t]; or
    settle the oldest call with the assistant message [reply], which is
    also the new error text when the call failed. *)
Inductive transition (eng eng' : Engine) : Prop :=
| stays :
    messages (ui eng') = messages (ui eng) ->
    loading (ui eng') = loading (ui eng) ->
    errorText (ui eng') = errorText (ui eng) ->
    in_flight eng' = in_flight eng ->
    transition eng eng'
| dispatches (t : jsstring) :
    trim t <> [] ->
    loading (ui eng) = false ->
    messages (ui eng')
      = messages (ui eng) ++ [{| role := user; content := trim t |}] ->
    input (ui eng') = [] ->
    loading (ui eng') = true ->
    errorText (ui eng') = [] ->
    in_flight eng'
      = in_flight eng ++ [post API_URL sessionId JSON_stringify (trim t)] ->
    transition eng eng'
| settles (r : Request) (rest : list Request) (reply : jsstring) :
    in_flight eng = r :: rest ->
    in_flight eng' = rest ->
    messages (ui eng')
      = messages (ui eng) ++ [{| role := assistant; content := reply |}] ->
    input (ui eng') = input (ui eng) ->
    loading (ui eng') = false ->
    errorText (ui eng') = errorText (ui eng) \/
    (errorText (ui eng') = reply /\ reply <> []) ->
    transition eng eng'.

(** The facts that hold in every state the component reaches. *)
Record coherent (eng : Engine) : Prop := {
  one_slot : slot_invariant eng;
  roles_alternate : alternating (messages (ui eng));
  parity : Nat.even (length (messages (ui eng))) = negb (loading (ui eng));
  pending_request :
    loading (ui eng) = true ->
    exists earlier text,
      messages (ui eng) = earlier ++ [{| role := user; content := text |}] /\
      in_flight eng = [post API_URL sessionId JSON_stringify text];
  user_texts_trimmed :
    forall m, In m (messages (ui eng)) -> role m = user -> trimmed (content m);
  error_is_last_reply :
    errorText (ui eng) = [] \/
    (loading (ui eng) = false /\
     exists earlier,
       messages (ui eng)
         = earlier ++ [{| role := assistant; content := errorText (ui eng) |}])
}.

End WithPlatform.

End Log.

(* ================================================================== *)
(** * Properties *)

(** ** Strings *)

Lemma eqb_eq (a b : jsstring) : JsString.eqb a b = true <-> a = b.
Proof.
  revert b; induction a as [|x a IH]; intros [|y b]; simpl;
    try (split; intro H; [discriminate H | inversion H]); try tauto.
  rewrite andb_true_iff, N.eqb_eq, IH.
  split; [intros [-> ->]; reflexivity | intros H; inversion H; auto].
Qed.

Lemma prefix_app (p s : jsstring) : prefix p (p ++ s) = true.
Proof.
  induction p as [|x p IH]; simpl; [reflexivity|].
  now rewrite N.eqb_refl, IH.
Qed.

Lemma includes_app (a p b : jsstring) : includes (a ++ p ++ b) p = true.
Proof.
  induction a as [|x a IH]; simpl.
  - destruct (p ++ b) eqn:E; simpl; rewrite <- E, prefix_app; reflexivity.
  - rewrite IH. apply orb_true_r.
Qed.

Lemma trimStart_all_white (s : jsstring) :
  forallb is_white_space s = true -> trimStart s = [].
Proof.
  induction s as [|c s IH]; simpl; [reflexivity|].
  intros H; apply andb_true_iff in H as [Hc Hs].
  rewrite Hc. exact (IH Hs).
Qed.

Lemma trim_all_white (s : jsstring) :
  forallb is_white_space s = true -> trim s = [].
Proof.
  intros H. unfold trim, trimEnd.
  rewrite (trimStart_all_white s H). reflexivity.
Qed.

(** ** Reply extraction *)

Module ExtractorFacts.
Import Extractor.

Lemma scan_object (props : list (jsstring * JSONValue)) (ks : list jsstring) :
  scan (JObject props) ks = first_string_under ks props.
Proof.
  induction ks as [|k ks IH]; simpl; [reflexivity|].
  rewrite IH. reflexivity.
Qed.

(** A key that holds no string is skipped: the first match among
    [k :: ks] is the first match among [ks]. *)
Lemma first_string_key_skip k ks props s :
  (forall s', assoc k props <> Some (JString s')) ->
  first_string_key (k :: ks) props s <-> first_string_key ks props s.
Proof.
  intros Hk; split.
  - intros ([|k1 b] & k0 & a & E & Hk0 & Hb); simpl in E;
      inversion E; subst.
    + exfalso; exact (Hk s Hk0).
    + exists b, k0, a; repeat split; auto.
      intros k' Hin; apply Hb; right; exact Hin.
  - intros (b & k0 & a & -> & Hk0 & Hb).
    exists (k :: b), k0, a; repeat split; auto.
    intros k' [<-|Hin]; [exact Hk | apply Hb; exact Hin].
Qed.

Lemma first_string_key_hit k ks props s0 s :
  assoc k props = Some (JString s0) ->
  first_string_key (k :: ks) props s <-> s0 = s.
Proof.
  intros Hk; split.
  - intros ([|k1 b] & k0 & a & E & Hk0 & Hb); simpl in E;
      inversion E; subst.
    + congruence.
    + exfalso; apply (Hb k1 (or_introl eq_refl) s0 Hk).
  - intros <-. exists [], k, ks; repeat split; auto.
Qed.

Ltac skip_key IH Ek :=
  rewrite first_string_key_skip by (intros ? ?; congruence); exact IH.

Lemma first_string_under_Some ks props s :
  first_string_under ks props = Some s <-> first_string_key ks props s.
Proof.
  induction ks as [|k ks IH]; simpl.
  - split; [discriminate|].
    intros (before & k & after & E & _). destruct before; discriminate E.
  - destruct (assoc k props) as [[ | b | q | s0 | items | ps ]|] eqn:Ek;
      try skip_key IH Ek.
    rewrite (@first_string_key_hit k ks props s0 s Ek).
    split; congruence.
Qed.

Lemma first_string_under_None ks props :
  first_string_under ks props = None <->
  forall k, In k ks -> forall s, assoc k props <> Some (JString s).
Proof.
  induction ks as [|k ks IH]; simpl.
  - split; [intros _ k [] | reflexivity].
  - assert (Hskip : (forall s, assoc k props <> Some (JString s)) ->
              ((forall k', In k' ks ->
                  forall s, assoc k' props <> Some (JString s)) <->
               (forall k', k = k' \/ In k' ks ->
                  forall s, assoc k' props <> Some (JString s)))).
    { intros Hk; split; intros H k' Hin.
      - destruct Hin as [<-|Hin]; [exact Hk | exact (H k' Hin)].
      - apply H; right; exact Hin. }
    destruct (assoc k props) as [[ | b | q | s0 | items | ps ]|] eqn:Ek;
      try (rewrite IH; apply Hskip; intros ? ?; congruence).
    split; [discriminate|].
    intros H; exfalso; exact (H k (or_introl eq_refl) s0 Ek).
Qed.

Lemma extractText_refines (payload : JSONValue) :
  extractText payload = extract_spec payload.
Proof.
  revert payload.
  fix IH 1. intros [ | b | q | s | items | props ]; simpl.
  1-4: reflexivity.
  - destruct items as [|first rest]; [reflexivity | apply IH].
  - apply (scan_object props keys).
Qed.

(** C1. For every payload [extractText] follows the documented
    precedence: it agrees with the four-case rule of the specification;
    a string is returned as it is; a non-empty array gives what its
    first element gives, whatever follows; an object gives the string
    under the first of output, reply, message, content, text, result
    that holds a string, and [undefined] when none does; every other
    value gives [undefined].  The five documented examples evaluate as
    stated. *)
Theorem extractText_precedence :
  (forall payload, extractText payload = extract_spec payload) /\
  (forall s, extractText (JString s) = Some s) /\
  (forall first rest, extractText (JArray (first :: rest)) = extractText first) /\
  (forall props s,
      extractText (JObject props) = Some s <->
      first_string_key
        [js "output"; js "reply"; js "message"; js "content"; js "text";
         js "result"] props s) /\
  (forall props,
      extractText (JObject props) = None <->
      forall k,
        In k [js "output"; js "reply"; js "message"; js "content";
              js "text"; js "result"] ->
        forall s, assoc k props <> Some (JString s)) /\
  (forall b q,
      extractText JNull = None /\ extractText (JBool b) = None /\
      extractText (JNumber q) = None /\ extractText (JArray []) = None) /\
  extractText (JString (js "hello")) = Some (js "hello") /\
  extractText (JArray [JString (js "a"); JString (js "b")]) = Some (js "a") /\
  extractText (JObject [(js "reply", JString (js "hi"))]) = Some (js "hi") /\
  extractText (JObject [(js "output", JObject [(js "x", JNumber 1)])]) = None /\
  extractText (JObject [(js "foo", JString (js "bar"))]) = None.
Proof.
  split; [exact extractText_refines|].
  split; [reflexivity|].
  split; [reflexivity|].
  split.
  { intros props s. rewrite <- first_string_under_Some.
    change (extractText (JObject props)) with (scan (JObject props) keys).
    rewrite scan_object. reflexivity. }
  split.
  { intros props. rewrite <- first_string_under_None.
    change (extractText (JObject props)) with (scan (JObject props) keys).
    rewrite scan_object. reflexivity. }
  split; [intros; repeat split|].
  repeat split; vm_compute; reflexivity.
Qed.

End ExtractorFacts.

(** ** The session identifier *)

Module IdentityFacts.
Import Identity.

Lemma every_byte (P : Z -> bool) :
  forallb P (map Z.of_nat (seq 0 256)) = true ->
  forall b, (0 <= b < 256)%Z -> P b = true.
Proof.
  intros H b Hb.
  rewrite forallb_forall in H. apply H.
  apply in_map_iff. exists (Z.to_nat b). split; [lia|].
  apply in_seq. lia.
Qed.

Lemma digits_of_byte (b : Z) :
  (0 <= b < 256)%Z ->
  exists h l,
    toHex b = [h; l] /\ is_hex h = true /\ is_hex l = true /\
    (Z.land b 0xf0 = 0x40%Z -> is_four h = true) /\
    (Z.land b 0xc0 = 0x80%Z -> is_variant h = true).
Proof.
  intros Hb.
  assert (H : digits_ok b = true)
    by (revert b Hb; apply every_byte; vm_compute; reflexivity).
  unfold digits_ok in H.
  destruct (toHex b) as [|h [|l [|x rest]]]; try discriminate H.
  exists h, l.
  repeat (apply andb_true_iff in H; destruct H as [H ?]).
  repeat split; auto.
  - intros E. rewrite E in *. assumption.
  - intros E. rewrite E in *. assumption.
Qed.

Lemma masks_of_byte (b : Z) :
  (0 <= b < 256)%Z ->
  let v := Z.lor (Z.land b 0x0f) 0x40 in
  let w := Z.lor (Z.land b 0x3f) 0x80 in
  ToUint8 v = v /\ Z.land v 0xf0 = 0x40%Z /\
  ToUint8 w = w /\ Z.land w 0xc0 = 0x80%Z.
Proof.
  intros Hb.
  assert (H : masks_ok b = true)
    by (revert b Hb; apply every_byte; vm_compute; reflexivity).
  unfold masks_ok in H.
  repeat (apply andb_true_iff in H; destruct H as [H ?]).
  repeat split; apply Z.eqb_eq; assumption.
Qed.

Lemma ToUint8_range (v : Z) : (0 <= ToUint8 v < 256)%Z.
Proof. unfold ToUint8. apply Z.mod_pos_bound. lia. Qed.

Lemma version_digits (b : Z) :
  (0 <= b < 256)%Z ->
  exists l,
    toHex (ToUint8 (Z.lor (Z.land b 0x0f) 0x40)) = [0x34%N; l] /\
    is_hex l = true.
Proof.
  intros Hb. destruct (masks_of_byte Hb) as (E & Hv & _ & _).
  rewrite E.
  destruct (digits_of_byte (b := Z.lor (Z.land b 0x0f) 0x40))
    as (h & l & Ehl & _ & Hl & H4 & _).
  { rewrite <- E. apply ToUint8_range. }
  exists l. split; [|exact Hl].
  rewrite Ehl. specialize (H4 Hv). apply N.eqb_eq in H4. now subst h.
Qed.

Lemma variant_digits (b : Z) :
  (0 <= b < 256)%Z ->
  exists h l,
    toHex (ToUint8 (Z.lor (Z.land b 0x3f) 0x80)) = [h; l] /\
    is_variant h = true /\ is_hex l = true.
Proof.
  intros Hb. destruct (masks_of_byte Hb) as (_ & _ & E & Hw).
  rewrite E.
  destruct (digits_of_byte (b := Z.lor (Z.land b 0x3f) 0x80))
    as (h & l & Ehl & _ & Hl & _ & Hvar).
  { rewrite <- E. apply ToUint8_range. }
  exists h, l. auto.
Qed.

Ltac two_digits b :=
  let h := fresh "h" in
  let l := fresh "l" in
  let E := fresh "E" in
  let Hh := fresh "Hh" in
  let Hl := fresh "Hl" in
  destruct (digits_of_byte (ToUint8_range b)) as (h & l & E & Hh & Hl & _ & _);
  rewrite E; clear E.

(** The formatting of sixteen stored elements, the seventh and ninth
    masked as the source masks them. *)
Lemma masked_format (g : nat -> Z) :
  let bytes := map (fun i => ToUint8 (g i)) (seq 0 16) in
  let bytes := store 6 (Z.lor (Z.land (load 6 bytes) 0x0f) 0x40) bytes in
  let bytes := store 8 (Z.lor (Z.land (load 8 bytes) 0x3f) 0x80) bytes in
  is_uuid_v4 (format bytes) = true.
Proof.
  cbn [map seq store load nth].
  unfold format. cbn [map concat app].
  destruct (version_digits (ToUint8_range (g 6%nat))) as (l6 & E6 & Hl6).
  destruct (variant_digits (ToUint8_range (g 8%nat))) as (h8 & l8 & E8 & Hh8 & Hl8).
  rewrite E6, E8. clear E6 E8.
  two_digits (g 0%nat). two_digits (g 1%nat). two_digits (g 2%nat).
  two_digits (g 3%nat). two_digits (g 4%nat). two_digits (g 5%nat).
  two_digits (g 7%nat). two_digits (g 9%nat). two_digits (g 10%nat).
  two_digits (g 11%nat). two_digits (g 12%nat). two_digits (g 13%nat).
  two_digits (g 14%nat). two_digits (g 15%nat).
  cbn [app slice slice_from skipn firstn Nat.sub].
  unfold is_uuid_v4, pattern.
  cbn [repeat app matches js list_ascii_of_string map].
  repeat match goal with H : _ = true |- _ => rewrite H; clear H end.
  reflexivity.
Qed.

(** C6. Whatever the random source, [sessionId] has the shape
    xxxxxxxx-xxxx-4xxx-yxxx-xxxxxxxxxxxx with x a lower-case hexadecimal
    digit and y one of 8, 9, a, b: on the [getRandomValues] path and on
    the [Math.random] path for every value the source delivers, and on
    the native path because the component returns the platform's
    [crypto.randomUUID()] unchanged, which has that shape. *)
Theorem sessionId_is_uuid_v4 (src : RandomSource) :
  conforms src -> is_uuid_v4 (sessionId src) = true.
Proof.
  destruct src as [uuid | fill | draw]; intros H.
  - exact H.
  - exact (masked_format fill).
  - exact (masked_format (fun i => Qfloor (draw i * 256)%Q)).
Qed.

Lemma sessionId_is_uuid_v4_witness :
  is_uuid_v4
    (sessionId (NativeRandomUUID (js "123e4567-e89b-42d3-a456-426614174000")))
  = true /\
  is_uuid_v4 (sessionId (GetRandomValues (fun i => 255%Z))) = true /\
  is_uuid_v4 (sessionId (MathRandom (fun i => (Z.of_nat i # 17)%Q))) = true.
Proof.
  split; [|split].
  - apply (sessionId_is_uuid_v4
             (NativeRandomUUID (js "123e4567-e89b-42d3-a456-426614174000"))).
    reflexivity.
  - apply (sessionId_is_uuid_v4 (GetRandomValues (fun i => 255%Z))).
    exact I.
  - apply (sessionId_is_uuid_v4 (MathRandom (fun i => (Z.of_nat i # 17)%Q))).
    exact I.
Defined.

End IdentityFacts.

(** ** The render pipeline *)

Module RenderFacts.
Import Render.

Lemma flat_map_flat_map {A B C} (f : B -> list C) (g : A -> list B) (l : list A) :
  flat_map f (flat_map g l) = flat_map (fun x => flat_map f (g x)) l.
Proof.
  induction l as [|x l IH]; simpl; [reflexivity|].
  rewrite flat_map_app, IH. reflexivity.
Qed.

Lemma escape_unit_entity (c : unit16) : escape_unit c = entity c.
Proof.
  unfold escape_unit, escapeHtml, entity, replaceAll.
  cbn [flat_map app].
  destruct (N.eqb_spec c 0x26) as [->|H1]; [reflexivity|].
  cbn [flat_map app].
  destruct (N.eqb_spec c 0x3C) as [->|H2]; [reflexivity|].
  cbn [flat_map app].
  destruct (N.eqb_spec c 0x3E) as [->|H3]; [reflexivity|].
  cbn [flat_map app].
  destruct (N.eqb_spec c 0x22) as [->|H4]; [reflexivity|].
  cbn [flat_map app].
  destruct (N.eqb_spec c 0x27) as [->|H5]; reflexivity.
Qed.

(** Replacing one after the other is replacing at once: no entity
    contains a character that a later replacement looks for. *)
Lemma escapeHtml_escaped (raw : jsstring) : escapeHtml raw = escaped raw.
Proof.
  unfold escaped.
  rewrite (flat_map_ext entity escape_unit)
    by (intros c; symmetry; apply escape_unit_entity).
  unfold escape_unit, escapeHtml, replaceAll.
  rewrite !flat_map_flat_map.
  apply flat_map_ext. intros c.
  cbn [flat_map app]. rewrite !app_nil_r.
  rewrite <- !flat_map_flat_map. reflexivity.
Qed.

(** C7, as stated, fails: with the formatter not loaded and the sanitizer
    loaded, the result is what the sanitizer makes of the escaped block,
    not the escaped block. *)
Lemma renderMarkdown_unformatted_is_sanitized :
  formatting_available purify_only = false /\
  renderMarkdown purify_only (js "hi")
    = Normal (js "<pre>hi" ++ [0x0A%N] ++ js "</pre>") /\
  preformatted (js "hi") = js "<pre>" ++ [0x0A%N] ++ js "hi" ++ [0x0A%N] ++ js "</pre>" /\
  JsString.eqb (js "<pre>hi" ++ [0x0A%N] ++ js "</pre>") (preformatted (js "hi"))
    = false.
Proof. repeat split. Qed.

(** C7, amended. [renderMarkdown] never throws, whatever the two
    libraries do.  When neither library is available, when the formatter
    throws, and when the sanitizer throws, the result is the input with
    &, <, >, double quote and apostrophe replaced by their entities,
    between [<pre>\n] and [\n</pre>]: a function of the input alone.
    When the formatter is unavailable and the sanitizer is available,
    the result is what the sanitizer returns for that block. *)
Theorem renderMarkdown_total (caps : Capabilities) (mdText : jsstring) :
  (exists html, renderMarkdown caps mdText = Normal html) /\
  (formatting_available caps = false ->
   sanitizer_available caps = false ->
   renderMarkdown caps mdText = Normal (preformatted mdText)) /\
  (forall marked_parse err,
      markedReady caps = true ->
      window_marked caps = Some marked_parse ->
      marked_parse mdText = Throw err ->
      renderMarkdown caps mdText = Normal (preformatted mdText)) /\
  (forall sanitize,
      formatting_available caps = false ->
      purifyReady caps = true ->
      window_DOMPurify caps = Some sanitize ->
      renderMarkdown caps mdText =
        match sanitize (preformatted mdText) with
        | Normal out => Normal out
        | Throw _ => Normal (preformatted mdText)
        end) /\
  (forall marked_parse parsed sanitize err,
      markedReady caps = true ->
      window_marked caps = Some marked_parse ->
      marked_parse mdText = Normal parsed ->
      purifyReady caps = true ->
      window_DOMPurify caps = Some sanitize ->
      sanitize parsed = Throw err ->
      renderMarkdown caps mdText = Normal (preformatted mdText)) /\
  preformatted mdText
    = js "<pre>" ++ [0x0A%N] ++ escaped mdText ++ [0x0A%N] ++ js "</pre>".
Proof.
  destruct caps as [mr wm pr wp]; unfold renderMarkdown,
    formatting_available, sanitizer_available; cbn [markedReady
    window_marked purifyReady window_DOMPurify].
  repeat split.
  - destruct mr, wm as [p|], pr, wp as [s|]; cbn [bind try_catch];
      try destruct (p mdText) as [parsed|e]; cbn [bind try_catch];
      try destruct (s _) as [out|e']; cbn [bind try_catch]; eauto.
  - intros Hf Hs.
    destruct mr, wm as [p|], pr, wp as [s|]; try discriminate;
      reflexivity.
  - intros p e -> [= ->] E. rewrite E. reflexivity.
  - intros s Hf -> [= ->].
    destruct mr, wm as [p|]; try discriminate; cbn [bind try_catch];
      destruct (s (preformatted mdText)); reflexivity.
  - intros p parsed s e -> [= ->] E -> [= ->] Es.
    rewrite E. cbn [bind]. rewrite Es. reflexivity.
  - unfold preformatted. rewrite escapeHtml_escaped. reflexivity.
Qed.

Lemma renderMarkdown_total_witness :
  renderMarkdown no_capabilities (js "<b>Tom & Jerry</b>")
    = Normal (js "<pre>" ++ [0x0A%N] ++ js "&lt;b&gt;Tom &amp; Jerry&lt;/b&gt;"
                ++ [0x0A%N] ++ js "</pre>") /\
  renderMarkdown failing_marked (js "it's")
    = Normal (js "<pre>" ++ [0x0A%N] ++ js "it&#039;s" ++ [0x0A%N] ++ js "</pre>") /\
  renderMarkdown purify_only (js "hi")
    = Normal (js "<pre>hi" ++ [0x0A%N] ++ js "</pre>").
Proof.
  split; [|split].
  - apply (renderMarkdown_total no_capabilities (js "<b>Tom & Jerry</b>"));
      reflexivity.
  - apply (proj1 (proj2 (proj2
             (renderMarkdown_total failing_marked (js "it's"))))
             (fun _ => Throw (mkError (js "marked failed")))
             (mkError (js "marked failed")));
      reflexivity.
  - apply (proj1 (proj2 (proj2 (proj2
             (renderMarkdown_total purify_only (js "hi"))))) reserialize);
      reflexivity.
Defined.

End RenderFacts.

(** ** The conversation engine *)

Module ConversationFacts.
Import Extractor Conversation.

Lemma perform_nothing (eng : Engine) : perform eng nothing = eng.
Proof.
  destruct eng as [st fl]. unfold perform; simpl.
  now rewrite app_nil_r.
Qed.

Lemma length_zero_nil {A} (l : list A) : Nat.eqb (length l) 0 = true <-> l = [].
Proof. destruct l; simpl; split; intros H; congruence. Qed.

Section WithPlatform.

Variable API_URL : jsstring.
Variable sessionId : jsstring.
Variable JSON_parse : jsstring -> completion JSONValue.
Variable JSON_stringify : JSONValue -> jsstring.

Local Abbreviation sendMessage := (sendMessage API_URL sessionId JSON_stringify).
Local Abbreviation quickSend := (quickSend API_URL sessionId JSON_stringify).
Local Abbreviation onKeyDown := (onKeyDown API_URL sessionId JSON_stringify).
Local Abbreviation onKeyDown_prompt :=
  (onKeyDown_prompt API_URL sessionId JSON_stringify).
Local Abbreviation markdownReply := (markdownReply JSON_parse JSON_stringify).
Local Abbreviation sendMessage_settled :=
  (sendMessage_settled JSON_parse JSON_stringify).
Local Abbreviation step := (step API_URL sessionId JSON_parse JSON_stringify).
Local Abbreviation run := (run API_URL sessionId JSON_parse JSON_stringify).
Local Abbreviation submit := (submit API_URL sessionId JSON_stringify).
Local Abbreviation reachable :=
  (reachable API_URL sessionId JSON_parse JSON_stringify).
Local Abbreviation post := (post API_URL sessionId JSON_stringify).
Local Abbreviation failure := (failure JSON_parse).

(** *** The guard of [sendMessage] *)

Lemma sendMessage_rejected (snap : State) (overrideText : option jsstring) :
  trim (textSource snap overrideText) = [] \/ loading snap = true ->
  sendMessage snap overrideText = nothing.
Proof.
  intros H. unfold Conversation.sendMessage.
  destruct H as [-> | ->]; [reflexivity|].
  now rewrite orb_true_r.
Qed.

Lemma sendMessage_dispatched (snap : State) (overrideText : option jsstring) :
  trim (textSource snap overrideText) <> [] ->
  loading snap = false ->
  sendMessage snap overrideText =
    let text := trim (textSource snap overrideText) in
    {| updates := [SetErrorText []; SetLoading true;
                   SetMessages (messages snap ++
                                [{| role := user; content := text |}]);
                   SetInput []];
       request := Some (post text) |}.
Proof.
  intros Ht Hl. unfold Conversation.sendMessage. rewrite Hl.
  destruct (Nat.eqb (length (trim (textSource snap overrideText))) 0) eqn:E.
  - apply length_zero_nil in E. contradiction.
  - reflexivity.
Qed.

Lemma submit_rejected (eng : Engine) (overrideText : option jsstring) :
  trim (textSource (ui eng) overrideText) = [] \/ loading (ui eng) = true ->
  submit eng overrideText = eng.
Proof.
  intros H. unfold Conversation.submit.
  rewrite (sendMessage_rejected _ _ H). apply perform_nothing.
Qed.

Lemma quickSend_pending (snap : State) (text : jsstring) :
  loading snap = true -> quickSend snap text = nothing.
Proof. intros H. unfold Conversation.quickSend. now rewrite H. Qed.

(** *** What the settling of the call does *)

Lemma settled_shape (outcome : FetchOutcome) :
  exists reply tail,
    sendMessage_settled outcome =
      AppendMessage {| role := assistant; content := reply |} :: tail /\
    (tail = [SetLoading false] \/
     tail = [SetErrorText reply; SetLoading false]).
Proof.
  unfold Conversation.sendMessage_settled.
  destruct outcome as [err | r]; cbn [bind].
  - eexists _, _; split; [reflexivity | right; reflexivity].
  - destruct (markdownReply r) as [reply | err]; cbn [bind app].
    + eexists _, _; split; [reflexivity | left; reflexivity].
    + eexists _, _; split; [reflexivity | right; reflexivity].
Qed.

Lemma settled_state (outcome : FetchOutcome) (st : State) :
  exists reply,
    messages (apply_updates (sendMessage_settled outcome) st)
      = messages st ++ [{| role := assistant; content := reply |}] /\
    loading (apply_updates (sendMessage_settled outcome) st) = false /\
    input (apply_updates (sendMessage_settled outcome) st) = input st.
Proof.
  destruct (settled_shape outcome) as (reply & tail & -> & [-> | ->]);
    exists reply; repeat split.
Qed.

(** *** Events while a call is pending *)

Lemma step_while_pending (eng : Engine) (ev : Event) :
  loading (ui eng) = true ->
  is_settled ev = false ->
  messages (ui (step eng ev)) = messages (ui eng) /\
  loading (ui (step eng ev)) = true /\
  errorText (ui (step eng ev)) = errorText (ui eng) /\
  in_flight (step eng ev) = in_flight eng.
Proof.
  intros Hl Hev.
  destruct ev as [value | e | | it | it e | outcome];
    try discriminate Hev; cbn [Conversation.step].
  - unfold perform; cbn. rewrite app_nil_r. auto.
  - unfold Conversation.onKeyDown.
    destruct (_ && _); cbn [snd];
      rewrite ?(sendMessage_rejected _ _ (or_intror Hl)),
        perform_nothing; auto.
  - rewrite (sendMessage_rejected _ _ (or_intror Hl)), perform_nothing; auto.
  - rewrite (quickSend_pending _ _ Hl), perform_nothing; auto.
  - unfold Conversation.onKeyDown_prompt.
    destruct (_ || _);
      rewrite ?(quickSend_pending _ _ Hl), perform_nothing; auto.
Qed.

Lemma run_while_pending (evs : list Event) (eng : Engine) :
  loading (ui eng) = true ->
  Forall (fun ev => is_settled ev = false) evs ->
  messages (ui (run eng evs)) = messages (ui eng) /\
  loading (ui (run eng evs)) = true /\
  errorText (ui (run eng evs)) = errorText (ui eng) /\
  in_flight (run eng evs) = in_flight eng.
Proof.
  revert eng; induction evs as [|ev evs IH]; intros eng Hl Hevs.
  - cbn. auto.
  - inversion Hevs as [|? ? Hev Hrest]; subst.
    destruct (step_while_pending eng ev Hl Hev) as (Hm & Hl' & He & Hf).
    destruct (IH (step eng ev) Hl' Hrest) as (Hm2 & Hl2 & He2 & Hf2).
    change (Conversation.run API_URL sessionId JSON_parse JSON_stringify
              eng (ev :: evs))
      with (run (step eng ev) evs).
    rewrite Hm2, He2, Hf2. auto.
Qed.

(** *** The invariant behind the single request slot *)

Lemma perform_sendMessage_invariant (eng : Engine) (ov : option jsstring) :
  slot_invariant eng -> slot_invariant (submit eng ov).
Proof.
  intros Hinv.
  destruct (list_eq_dec N.eq_dec (trim (textSource (ui eng) ov)) [])
    as [Ht | Ht]; [now rewrite submit_rejected by (left; exact Ht)|].
  destruct (loading (ui eng)) eqn:Hl;
    [now rewrite submit_rejected by (right; exact Hl)|].
  unfold Conversation.submit, slot_invariant in *.
  rewrite (sendMessage_dispatched _ _ Ht Hl). rewrite Hl in Hinv.
  unfold perform; cbn. rewrite length_app, Hinv. reflexivity.
Qed.

Lemma perform_quickSend_invariant (eng : Engine) (it : jsstring) :
  slot_invariant eng -> slot_invariant (perform eng (quickSend (ui eng) it)).
Proof.
  intros Hinv. unfold Conversation.quickSend.
  destruct (loading (ui eng)) eqn:Hl; [now rewrite perform_nothing|].
  destruct (list_eq_dec N.eq_dec (trim it) []) as [Ht | Ht].
  - rewrite (sendMessage_rejected (ui eng) (Some it) (or_introl Ht)).
    unfold slot_invariant, perform in *; cbn.
    rewrite app_nil_r. exact Hinv.
  - rewrite (sendMessage_dispatched (ui eng) (Some it) Ht Hl).
    unfold slot_invariant, perform in *; cbn.
    rewrite Hl in Hinv. rewrite length_app, Hinv. reflexivity.
Qed.

Lemma step_invariant (eng : Engine) (ev : Event) :
  slot_invariant eng -> slot_invariant (step eng ev).
Proof.
  intros Hinv.
  destruct ev as [value | e | | it | it e | outcome];
    cbn [Conversation.step].
  - unfold slot_invariant, perform in *; cbn. now rewrite app_nil_r.
  - unfold Conversation.onKeyDown. destruct (_ && _); cbn [snd].
    + exact (perform_sendMessage_invariant None Hinv).
    + now rewrite perform_nothing.
  - exact (perform_sendMessage_invariant None Hinv).
  - exact (perform_quickSend_invariant it Hinv).
  - unfold Conversation.onKeyDown_prompt. destruct (_ || _).
    + exact (perform_quickSend_invariant it Hinv).
    + now rewrite perform_nothing.
  - destruct (in_flight eng) as [|r rest] eqn:Hf; [exact Hinv|].
    unfold slot_invariant in *. rewrite Hf in Hinv. cbn [ui in_flight].
    destruct (settled_state outcome (ui eng)) as (reply & _ & -> & _).
    destruct (loading (ui eng)); cbn in Hinv; [|discriminate].
    destruct rest; [reflexivity | discriminate].
Qed.

Lemma reachable_invariant (eng : Engine) :
  reachable eng -> slot_invariant eng.
Proof.
  induction 1 as [| eng ev _ IH | eng t _ IH].
  - reflexivity.
  - exact (step_invariant ev IH).
  - exact (perform_sendMessage_invariant (Some t) IH).
Qed.

(** *** The claims about [sendMessage] *)

(** C4. When the text to send (the argument if it is a string, else
    the draft) consists of white space only or is empty, [sendMessage]
    calls no setter and sends no request: the log, the pending flag,
    the error text, the draft and the set of calls in flight are what
    they were, so a flag that was false stays false. *)
Theorem sendMessage_blank_noop (eng : Engine) (overrideText : option jsstring) :
  forallb is_white_space (textSource (ui eng) overrideText) = true ->
  sendMessage (ui eng) overrideText = nothing /\
  submit eng overrideText = eng /\
  messages (ui (submit eng overrideText)) = messages (ui eng) /\
  loading (ui (submit eng overrideText)) = loading (ui eng) /\
  (loading (ui eng) = false ->
   loading (ui (submit eng overrideText)) = false) /\
  errorText (ui (submit eng overrideText)) = errorText (ui eng) /\
  in_flight (submit eng overrideText) = in_flight eng.
Proof.
  intros Hws.
  assert (Ht : trim (textSource (ui eng) overrideText) = [])
    by (apply trim_all_white; exact Hws).
  split; [apply sendMessage_rejected; left; exact Ht|].
  rewrite (submit_rejected eng overrideText (or_introl Ht)).
  repeat split; auto.
Qed.

(** C5. While [loading] is true a call of [sendMessage] calls no
    setter and sends no request, whatever its text: it is rejected,
    and nothing is kept for later.  In every state the component can
    reach, at most one call is in flight, and one is in flight exactly
    when [loading] is true. *)
Theorem sendMessage_pending_noop (eng : Engine) (overrideText : option jsstring) :
  loading (ui eng) = true ->
  sendMessage (ui eng) overrideText = nothing /\
  submit eng overrideText = eng /\
  length (messages (ui (submit eng overrideText)))
    = length (messages (ui eng)) /\
  loading (ui (submit eng overrideText)) = true /\
  in_flight (submit eng overrideText) = in_flight eng /\
  (reachable eng ->
   length (in_flight eng) = 1 /\
   length (in_flight (submit eng overrideText)) = 1) /\
  (forall eng', reachable eng' ->
     length (in_flight eng') <= 1 /\
     (length (in_flight eng') = 1 <-> loading (ui eng') = true)).
Proof.
  intros Hl.
  split; [apply sendMessage_rejected; right; exact Hl|].
  rewrite (submit_rejected eng overrideText (or_intror Hl)).
  repeat split; auto.
  - apply reachable_invariant in H. red in H. now rewrite Hl in H.
  - apply reachable_invariant in H. red in H. now rewrite Hl in H.
  - apply reachable_invariant in H. red in H.
    destruct (loading (ui eng')); lia.
  - apply reachable_invariant in H. red in H.
    destruct (loading (ui eng')); [reflexivity | lia].
  - apply reachable_invariant in H. red in H. intros E.
    now rewrite E in H.
Qed.

(** C2. When the trimmed text is not empty and no call is pending,
    [sendMessage] appends one user message holding the trimmed text
    and sets [loading]; while the call is pending, whatever the user
    does, the log stays exactly that (nothing stands in for the reply);
    when the call settles, in success or in failure, one assistant
    message is appended and [loading] is cleared.  The log has grown
    by exactly two messages. *)
Theorem sendMessage_appends_two
    (eng : Engine) (overrideText : option jsstring)
    (evs : list Event) (outcome : FetchOutcome) :
  trim (textSource (ui eng) overrideText) <> [] ->
  loading (ui eng) = false ->
  Forall (fun ev => is_settled ev = false) evs ->
  let text := trim (textSource (ui eng) overrideText) in
  let sent := {| role := user; content := text |} in
  let dispatched := submit eng overrideText in
  let pending := run dispatched evs in
  let settled := step pending (Settled outcome) in
  messages (ui dispatched) = messages (ui eng) ++ [sent] /\
  loading (ui dispatched) = true /\
  in_flight dispatched = in_flight eng ++ [post text] /\
  messages (ui pending) = messages (ui eng) ++ [sent] /\
  loading (ui pending) = true /\
  (exists reply,
      messages (ui settled)
        = messages (ui eng)
            ++ [sent; {| role := assistant; content := reply |}]) /\
  length (messages (ui settled)) = length (messages (ui eng)) + 2 /\
  loading (ui settled) = false.
Proof.
  intros Ht Hl Hevs text sent dispatched pending settled.
  assert (Hd : messages (ui dispatched) = messages (ui eng) ++ [sent] /\
               loading (ui dispatched) = true /\
               in_flight dispatched = in_flight eng ++ [post text]).
  { unfold dispatched, Conversation.submit.
    rewrite (sendMessage_dispatched _ _ Ht Hl).
    unfold perform; cbn. auto. }
  destruct Hd as (Hdm & Hdl & Hdf).
  destruct (@run_while_pending evs dispatched Hdl Hevs)
    as (Hpm & Hpl & _ & Hpf).
  fold pending in Hpm, Hpl, Hpf.
  assert (Hs : exists reply,
             messages (ui settled)
               = messages (ui pending)
                   ++ [{| role := assistant; content := reply |}] /\
             loading (ui settled) = false).
  { unfold settled. cbn [Conversation.step].
    rewrite Hpf, Hdf.
    destruct (in_flight eng) as [|r0 rest]; cbn [app ui];
      destruct (settled_state outcome (ui pending))
        as (reply & Hm & Hlo & _); exists reply; auto. }
  destruct Hs as (reply & Hsm & Hsl).
  repeat split; auto; try congruence.
  - exists reply. rewrite Hsm, Hpm, Hdm, <- app_assoc. reflexivity.
  - rewrite Hsm, Hpm, Hdm, !length_app. cbn. lia.
Qed.

(** *** Failures *)

Lemma failure_updates (outcome : FetchOutcome) (detail : jsstring) :
  failure outcome detail ->
  sendMessage_settled outcome =
    [AppendMessage {| role := assistant; content := apology ++ detail |};
     SetErrorText (apology ++ detail);
     SetLoading false].
Proof.
  intros H. unfold Conversation.sendMessage_settled.
  destruct H as [err | r Hok | r err Hok Hp | r ct raw err Hok Hct Hin Hp Hj];
    cbn [bind]; unfold Conversation.markdownReply; try rewrite Hok;
    cbn [negb].
  - reflexivity.
  - reflexivity.
  - unfold response_json, response_text. rewrite Hp.
    destruct (includes _ _); reflexivity.
  - rewrite Hct, Hin. unfold response_json. rewrite Hp. cbn [bind].
    rewrite Hj. reflexivity.
Qed.

(** C3. When a dispatched call fails (the [fetch] is rejected, the
    status is outside 200-299, the body cannot be read, or the body of
    a response declared as JSON does not parse), the settling appends
    one assistant message whose content is the apology followed by the
    failure detail, sets [errorText] to that same string and clears
    [loading]. *)
Theorem sendMessage_failure_reported
    (eng : Engine) (outcome : FetchOutcome) (detail : jsstring) :
  in_flight eng <> [] ->
  failure outcome detail ->
  let settled := step eng (Settled outcome) in
  let friendly := js "Sorry, I could not reach the API. " ++ detail in
  messages (ui settled)
    = messages (ui eng) ++ [{| role := assistant; content := friendly |}] /\
  includes friendly detail = true /\
  errorText (ui settled) = friendly /\
  loading (ui settled) = false.
Proof.
  intros Hf H settled friendly.
  assert (Hin : includes friendly detail = true).
  { unfold friendly.
    rewrite <- (app_nil_r detail) at 1. apply includes_app. }
  unfold settled. cbn [Conversation.step].
  destruct (in_flight eng) as [|r rest]; [contradiction|].
  rewrite (failure_updates H).
  repeat split; assumption.
Qed.

(** *** Successful responses *)

(** C8. For a response with a success status whose body reads as [raw]:
    if the content type declares JSON, the body is parsed and the
    assistant message is the string [extractText] finds in it, or
    [JSON.stringify] of the parsed value when it finds none; otherwise
    a parse of the text is attempted, and when it fails the assistant
    message is the raw text, which is what [extractText] returns for
    a bare string; when it succeeds the message is the string
    [extractText] finds in the parsed value, or the raw text. *)
Theorem sendMessage_reply_by_content_type
    (r : Response) (raw : jsstring) :
  ok r = true ->
  payload r = Normal raw ->
  let declared :=
    match content_type r with Some c => c | None => [] end in
  let says content :=
    sendMessage_settled (Resolved r) =
      [AppendMessage {| role := assistant; content := content |};
       SetLoading false] in
  (forall data,
      includes declared (js "application/json") = true ->
      JSON_parse raw = Normal data ->
      says (match extractText data with
            | Some s => s
            | None => JSON_stringify data
            end)) /\
  (forall err,
      includes declared (js "application/json") = false ->
      JSON_parse raw = Throw err ->
      says raw /\ extractText (JString raw) = Some raw) /\
  (forall maybe,
      includes declared (js "application/json") = false ->
      JSON_parse raw = Normal maybe ->
      says (match extractText maybe with
            | Some picked => picked
            | None => raw
            end)).
Proof.
  intros Hok Hp declared says. unfold says, declared.
  unfold Conversation.sendMessage_settled, Conversation.markdownReply,
    response_json, response_text.
  cbn [bind]. rewrite Hok, Hp. cbn [negb bind].
  split; [|split].
  - intros data -> ->. cbn [bind]. destruct (extractText data); reflexivity.
  - intros err H ->. rewrite H. split; reflexivity.
  - intros maybe -> ->. cbn [bind try_catch].
    destruct (extractText maybe); reflexivity.
Qed.

(** *** Keyboard and quick prompts *)

(** C9, amended. On the text area, Enter without Shift calls
    [preventDefault] and [sendMessage()], whatever the other modifier
    keys; Enter with Shift, and every other key, does neither, so the
    text area handles the key itself (for Shift+Enter, a line break). *)
Theorem onKeyDown_enter (snap : State) (e : KeyboardEvent) :
  (key e = js "Enter" -> shiftKey e = false ->
   onKeyDown snap e = (true, sendMessage snap None)) /\
  (key e = js "Enter" -> shiftKey e = true ->
   onKeyDown snap e = (false, nothing)) /\
  (key e <> js "Enter" -> onKeyDown snap e = (false, nothing)).
Proof.
  unfold Conversation.onKeyDown. repeat split.
  - intros -> ->. reflexivity.
  - intros -> ->. reflexivity.
  - intros H.
    destruct (JsString.eqb (key e) (js "Enter")) eqn:E; [|reflexivity].
    apply eqb_eq in E. contradiction.
Qed.

(** C10. While [loading] is true, choosing a suggested prompt calls no
    setter and sends no request: the log, the draft and the calls in
    flight are unchanged.  When [loading] is false, it sets the draft
    to the prompt and calls [sendMessage] with it; for each of the nine
    prompts that posts the prompt's own text and appends it to the log
    as a user message. *)
Theorem quickSend_guarded (eng : Engine) (it : jsstring) :
  (loading (ui eng) = true ->
   quickSend (ui eng) it = nothing /\
   step eng (ClickPrompt it) = eng /\
   forall e, step eng (KeyDownPrompt it e) = eng) /\
  (loading (ui eng) = false ->
   updates (quickSend (ui eng) it)
     = SetInput it :: updates (sendMessage (ui eng) (Some it)) /\
   request (quickSend (ui eng) it)
     = request (sendMessage (ui eng) (Some it))) /\
  (loading (ui eng) = false ->
   In it (flat_map snd suggestedPrompts) ->
   quickSend (ui eng) it =
     {| updates := [SetInput it; SetErrorText []; SetLoading true;
                    SetMessages (messages (ui eng) ++
                                 [{| role := user; content := it |}]);
                    SetInput []];
        request := Some (post it) |}).
Proof.
  repeat split.
  - apply quickSend_pending; assumption.
  - cbn [Conversation.step].
    rewrite quickSend_pending by assumption. apply perform_nothing.
  - intros e. cbn [Conversation.step].
    unfold Conversation.onKeyDown_prompt.
    destruct (_ || _);
      rewrite ?quickSend_pending by assumption; apply perform_nothing.
  - unfold Conversation.quickSend. rewrite H. reflexivity.
  - unfold Conversation.quickSend. rewrite H. reflexivity.
  - intros Hl Hin. unfold Conversation.quickSend. rewrite Hl.
    assert (Ht : trim it = it).
    { cbn [suggestedPrompts flat_map snd app] in Hin.
      repeat (destruct Hin as [<- | Hin]; [vm_compute; reflexivity|]).
      destruct Hin. }
    assert (Hne : trim (textSource (ui eng) (Some it)) <> []).
    { cbn [textSource]. rewrite Ht.
      cbn [suggestedPrompts flat_map snd app] in Hin.
      repeat (destruct Hin as [<- | Hin]; [discriminate|]).
      destruct Hin. }
    rewrite (sendMessage_dispatched _ _ Hne Hl).
    cbn [textSource updates request]. rewrite Ht. reflexivity.
Qed.

End WithPlatform.

End ConversationFacts.

(** ** The claims at concrete inputs *)

Module DemoFacts.
Import Extractor Conversation ConversationFacts Demo.

Lemma sendMessage_blank_noop_witness :
  submit endpoint session_id stringify
    (typing (js "   " ++ [0x0A%N; 0x09%N; 0xA0%N])) None
  = typing (js "   " ++ [0x0A%N; 0x09%N; 0xA0%N]).
Proof.
  apply (sendMessage_blank_noop endpoint session_id stringify
           (typing (js "   " ++ [0x0A%N; 0x09%N; 0xA0%N])) None).
  reflexivity.
Defined.

Lemma sendMessage_pending_noop_witness :
  submit endpoint session_id stringify waiting (Some (js "again")) = waiting /\
  length (in_flight waiting) = 1.
Proof.
  split.
  - apply (sendMessage_pending_noop endpoint session_id parse stringify
             waiting (Some (js "again"))).
    reflexivity.
  - refine (proj2 (proj1 (proj2 (proj2 (proj2 (proj2 (proj2
             (sendMessage_pending_noop endpoint session_id parse stringify
                waiting (Some (js "again")) eq_refl)))))) _)).
    apply (@reachable_step endpoint session_id parse stringify
             (typing question) ClickSend).
    apply (@reachable_step endpoint session_id parse stringify
             (typing []) (Change question)).
    apply reachable_boot.
Defined.

Lemma sendMessage_appends_two_witness :
  exists reply,
    messages (ui (step endpoint session_id parse stringify
                    (run endpoint session_id parse stringify
                       (submit endpoint session_id stringify
                          (typing (js "  hello ")) None)
                       [Change (js "more"); ClickSend;
                        KeyDown (enter false false)])
                    (Settled (Resolved (json_response output_text)))))
    = [] ++ [{| role := user; content := js "hello" |};
             {| role := assistant; content := reply |}].
Proof.
  apply (@sendMessage_appends_two endpoint session_id parse stringify
           (typing (js "  hello ")) None
           [Change (js "more"); ClickSend; KeyDown (enter false false)]
           (Resolved (json_response output_text))).
  - discriminate.
  - reflexivity.
  - repeat constructor.
Defined.

Lemma sendMessage_failure_reported_witness :
  messages (ui (step endpoint session_id parse stringify waiting
                  (Settled (Rejected (mkError (js "network down"))))))
  = messages (ui waiting)
      ++ [{| role := assistant;
             content := js "Sorry, I could not reach the API. "
                          ++ js "network down" |}] /\
  includes (js "Sorry, I could not reach the API. " ++ js "network down")
    (js "network down") = true /\
  errorText (ui (step endpoint session_id parse stringify waiting
                   (Settled (Rejected (mkError (js "network down"))))))
  = js "Sorry, I could not reach the API. " ++ js "network down" /\
  loading (ui (step endpoint session_id parse stringify waiting
                 (Settled (Rejected (mkError (js "network down"))))))
  = false.
Proof.
  apply (@sendMessage_failure_reported endpoint session_id parse stringify
           waiting (Rejected (mkError (js "network down")))
           (js "network down")).
  - discriminate.
  - exact (network_error parse (mkError (js "network down"))).
Defined.

Lemma sendMessage_reply_by_content_type_witness :
  sendMessage_settled parse stringify (Resolved (json_response output_text))
  = [AppendMessage {| role := assistant;
                      content := js "I have 5 years..." |};
     SetLoading false] /\
  sendMessage_settled parse stringify (Resolved (json_response (js "[1]")))
  = [AppendMessage {| role := assistant; content := js "[1]" |};
     SetLoading false] /\
  sendMessage_settled parse stringify (Resolved (text_response (js "Hello!")))
  = [AppendMessage {| role := assistant; content := js "Hello!" |};
     SetLoading false].
Proof.
  split; [|split].
  - apply (proj1 (@sendMessage_reply_by_content_type parse stringify
                    (json_response output_text) output_text
                    eq_refl eq_refl)
             (JObject [(js "output", JString (js "I have 5 years..."))]));
      reflexivity.
  - apply (proj1 (@sendMessage_reply_by_content_type parse stringify
                    (json_response (js "[1]")) (js "[1]")
                    eq_refl eq_refl)
             (JArray [JNumber 1]));
      reflexivity.
  - apply (proj1 (proj2 (@sendMessage_reply_by_content_type parse stringify
                           (text_response (js "Hello!")) (js "Hello!")
                           eq_refl eq_refl))
             (mkError (js "Unexpected token")));
      reflexivity.
Defined.

(** C9, as stated, fails: Enter with Control held (and Shift not held)
    is handled like a bare Enter: [preventDefault] is called and the
    draft is sent, so no line break is inserted. *)
Lemma onKeyDown_ctrl_enter_submits :
  has_modifier (enter false true) = true /\
  onKeyDown endpoint session_id stringify (ui (typing (js "hi")))
    (enter false true)
  = (true,
     {| updates := [SetErrorText []; SetLoading true;
                    SetMessages [{| role := user; content := js "hi" |}];
                    SetInput []];
        request := Some (post endpoint session_id stringify (js "hi")) |}).
Proof. split; reflexivity. Qed.

Lemma onKeyDown_enter_witness :
  onKeyDown endpoint session_id stringify (ui (typing (js "hi")))
    (enter false false)
  = (true, sendMessage endpoint session_id stringify
             (ui (typing (js "hi"))) None) /\
  onKeyDown endpoint session_id stringify (ui (typing (js "hi")))
    (enter true false)
  = (false, nothing).
Proof.
  split.
  - exact (proj1 (onKeyDown_enter endpoint session_id stringify
                    (ui (typing (js "hi"))) (enter false false))
             eq_refl eq_refl).
  - exact (proj1 (proj2 (onKeyDown_enter endpoint session_id stringify
                           (ui (typing (js "hi"))) (enter true false)))
             eq_refl eq_refl).
Defined.

Lemma quickSend_guarded_witness :
  step endpoint session_id parse stringify waiting
    (ClickPrompt (js "What are your key technical skills?")) = waiting /\
  request (quickSend endpoint session_id stringify (ui (typing []))
             (js "What are your key technical skills?"))
  = Some (post endpoint session_id stringify
            (js "What are your key technical skills?")).
Proof.
  split.
  - apply (quickSend_guarded endpoint session_id parse stringify waiting
             (js "What are your key technical skills?")).
    reflexivity.
  - rewrite (proj2 (proj2 (quickSend_guarded endpoint session_id parse
                             stringify (typing [])
                             (js "What are your key technical skills?")))
               eq_refl).
    + reflexivity.
    + cbn. tauto.
Defined.

End DemoFacts.

(* ================================================================== *)
(** * Further properties of the component *)

From Stdlib Require Import Lqa.
Unset Implicit Arguments.

(** ** Trimming *)

Lemma trimStart_head (s : jsstring) (c : unit16) (r : jsstring) :
  trimStart s = c :: r -> is_white_space c = false.
Proof.
  induction s as [|x s IH]; simpl; [discriminate|].
  destruct (is_white_space x) eqn:E; [exact IH|].
  intros H; inversion H; subst; exact E.
Qed.

Lemma trimStart_fixed (c : unit16) (r : jsstring) :
  is_white_space c = false -> trimStart (c :: r) = c :: r.
Proof. intros H; simpl; now rewrite H. Qed.

Lemma trimStart_idem (s : jsstring) : trimStart (trimStart s) = trimStart s.
Proof.
  destruct (trimStart s) as [|c r] eqn:E; [reflexivity|].
  apply trimStart_fixed. exact (trimStart_head s c r E).
Qed.

Lemma trimStart_snoc (l : jsstring) (c : unit16) :
  is_white_space c = false -> trimStart (l ++ [c]) = trimStart l ++ [c].
Proof.
  intros Hc; induction l as [|x l IH]; simpl.
  - now rewrite Hc.
  - destruct (is_white_space x); [exact IH | reflexivity].
Qed.

(** The result of [trim]: empty, or a first character that is not white
    space followed by a rest whose reverse starts with none either. *)
Lemma trim_shape (s : jsstring) :
  trim s = [] \/
  exists c r,
    trimStart s = c :: r /\ is_white_space c = false /\
    trim s = c :: rev (trimStart (rev r)).
Proof.
  unfold trim, trimEnd.
  destruct (trimStart s) as [|c r] eqn:E; [left; reflexivity|].
  right. exists c, r.
  assert (Hc := trimStart_head s c r E).
  repeat split; auto.
  cbn [rev]. rewrite (trimStart_snoc _ c Hc), rev_app_distr. reflexivity.
Qed.

Lemma trim_trimmed (s : jsstring) : trim s <> [] -> Log.trimmed (trim s).
Proof.
  intros Hne. destruct (trim_shape s) as [E | (c & r & _ & Hc & E)];
    [contradiction|].
  rewrite E. unfold Log.trimmed. split; [exact Hc|].
  destruct (trimStart (rev r)) as [|d v] eqn:Ev; cbn [rev].
  - exact Hc.
  - change (c :: rev v ++ [d]) with ((c :: rev v) ++ [d]).
    rewrite last_last. exact (trimStart_head _ d v Ev).
Qed.

Lemma trim_idem (s : jsstring) : trim (trim s) = trim s.
Proof.
  destruct (trim_shape s) as [E | (c & r & _ & Hc & E)];
    [rewrite E; reflexivity|].
  rewrite E. unfold trim at 1, trimEnd.
  rewrite (trimStart_fixed c _ Hc). cbn [rev].
  rewrite rev_involutive, (trimStart_snoc _ c Hc), trimStart_idem.
  rewrite rev_app_distr. reflexivity.
Qed.

(** ** The log and the calls in flight *)

Module LogFacts.
Import Extractor Conversation ConversationFacts Log View.

Lemma alternating_snoc (log : list Message) (m : Message) :
  alternating log ->
  role m = role_at (length log) ->
  alternating (log ++ [m]).
Proof.
  intros Hlog Hm i x Hi.
  destruct (Nat.lt_ge_cases i (length log)) as [Hlt | Hge].
  - rewrite nth_error_app1 in Hi by exact Hlt. exact (Hlog i x Hi).
  - rewrite nth_error_app2 in Hi by exact Hge.
    destruct (i - length log) as [|k] eqn:Ek; cbn in Hi.
    + inversion Hi; subst x. replace i with (length log) by lia. exact Hm.
    + destruct k; discriminate Hi.
Qed.

Lemma even_snoc {A} (l : list A) (x : A) :
  Nat.even (length (l ++ [x])) = negb (Nat.even (length l)).
Proof.
  rewrite length_app, Nat.add_1_r, Nat.even_succ, <- Nat.negb_even.
  reflexivity.
Qed.

Section WithPlatform.

Variable API_URL : jsstring.
Variable sessionId : jsstring.
Variable JSON_parse : jsstring -> completion JSONValue.
Variable JSON_stringify : JSONValue -> jsstring.

Local Abbreviation sendMessage := (sendMessage API_URL sessionId JSON_stringify).
Local Abbreviation quickSend := (quickSend API_URL sessionId JSON_stringify).
Local Abbreviation onKeyDown := (onKeyDown API_URL sessionId JSON_stringify).
Local Abbreviation sendMessage_settled :=
  (sendMessage_settled JSON_parse JSON_stringify).
Local Abbreviation step := (step API_URL sessionId JSON_parse JSON_stringify).
Local Abbreviation run := (run API_URL sessionId JSON_parse JSON_stringify).
Local Abbreviation submit := (submit API_URL sessionId JSON_stringify).
Local Abbreviation reachable :=
  (reachable API_URL sessionId JSON_parse JSON_stringify).
Local Abbreviation post := (post API_URL sessionId JSON_stringify).
Local Abbreviation transition := (transition API_URL sessionId JSON_stringify).
Local Abbreviation coherent := (coherent API_URL sessionId JSON_stringify).

(** *** Every event is one of three transitions *)

Lemma transition_nothing (eng : Engine) : transition eng (perform eng nothing).
Proof. rewrite perform_nothing. now apply stays. Qed.

Lemma submit_transition (eng : Engine) (ov : option jsstring) :
  transition eng (submit eng ov).
Proof.
  destruct (list_eq_dec N.eq_dec (trim (textSource (ui eng) ov)) [])
    as [Ht | Ht].
  { rewrite (@submit_rejected API_URL sessionId JSON_stringify eng ov (or_introl Ht)).
    now apply stays. }
  destruct (loading (ui eng)) eqn:Hl.
  { rewrite (@submit_rejected API_URL sessionId JSON_stringify eng ov (or_intror Hl)).
    now apply stays. }
  unfold Conversation.submit.
  rewrite (@sendMessage_dispatched API_URL sessionId JSON_stringify (ui eng) ov Ht Hl).
  apply (@dispatches API_URL sessionId JSON_stringify eng _
           (textSource (ui eng) ov) Ht Hl); reflexivity.
Qed.

Lemma quickSend_transition (eng : Engine) (it : jsstring) :
  transition eng (perform eng (quickSend (ui eng) it)).
Proof.
  unfold Conversation.quickSend.
  destruct (loading (ui eng)) eqn:Hl; [apply transition_nothing|].
  destruct (list_eq_dec N.eq_dec (trim it) []) as [Ht | Ht].
  - rewrite (@sendMessage_rejected API_URL sessionId JSON_stringify (ui eng)
               (Some it) (or_introl Ht)).
    apply stays; cbn; auto using app_nil_r.
  - rewrite (@sendMessage_dispatched API_URL sessionId JSON_stringify (ui eng)
               (Some it) Ht Hl).
    apply (@dispatches API_URL sessionId JSON_stringify eng _ it Ht Hl);
      reflexivity.
Qed.

Lemma settled_transition (eng : Engine) (outcome : FetchOutcome)
    (r : Request) (rest : list Request) :
  in_flight eng = r :: rest ->
  transition eng
    {| ui := apply_updates (sendMessage_settled outcome) (ui eng);
       in_flight := rest |}.
Proof.
  intros Hf.
  destruct (@settled_shape JSON_parse JSON_stringify outcome)
    as (reply & tail & E & Htail).
  rewrite E.
  destruct Htail as [-> | ->].
  - apply (@settles API_URL sessionId JSON_stringify eng _ r rest reply Hf);
      cbn; auto.
  - assert (Hne : reply <> []).
    { unfold Conversation.sendMessage_settled in E.
      destruct outcome as [err | resp]; cbn [bind] in E.
      - inversion E; discriminate.
      - destruct (markdownReply JSON_parse JSON_stringify resp);
          cbn [bind app] in E; inversion E; discriminate. }
    apply (@settles API_URL sessionId JSON_stringify eng _ r rest reply Hf);
      cbn; auto.
Qed.

Lemma step_transition (eng : Engine) (ev : Event) : transition eng (step eng ev).
Proof.
  destruct ev as [value | e | | it | it e | outcome]; cbn [Conversation.step].
  - apply stays; cbn; auto using app_nil_r.
  - unfold Conversation.onKeyDown. destruct (_ && _); cbn [snd].
    + exact (submit_transition eng None).
    + apply transition_nothing.
  - exact (submit_transition eng None).
  - apply quickSend_transition.
  - unfold Conversation.onKeyDown_prompt. destruct (_ || _).
    + apply quickSend_transition.
    + apply transition_nothing.
  - destruct (in_flight eng) as [|r rest] eqn:Hf.
    + now apply stays.
    + exact (settled_transition eng outcome r rest Hf).
Qed.

(** *** The invariant *)

Lemma coherent_boot : coherent boot.
Proof.
  split; cbn.
  - reflexivity.
  - intros [|i] m H; discriminate H.
  - reflexivity.
  - discriminate.
  - intros m [].
  - left; reflexivity.
Qed.

Lemma coherent_transition (eng eng' : Engine) :
  coherent eng -> transition eng eng' -> coherent eng'.
Proof.
  intros [Hslot Halt Hpar Hreq Htrim Herr] Ht. unfold slot_invariant in Hslot.
  destruct Ht as [Hm Hl He Hf
                 | t Hne Hidle Hm Hin Hl He Hf
                 | r rest reply Hf Hf' Hm Hin Hl He].
  - split; unfold slot_invariant; rewrite ?Hm, ?Hl, ?He, ?Hf; auto.
  - rewrite Hidle in *. cbn in Hpar.
    assert (Hnil : in_flight eng = []) by (destruct (in_flight eng); [reflexivity | discriminate]).
    split; unfold slot_invariant; rewrite ?Hm, ?Hl, ?He, ?Hf, ?Hnil; cbn.
    + reflexivity.
    + apply alternating_snoc; [exact Halt|].
      unfold role_at. now rewrite Hpar.
    + rewrite even_snoc, Hpar. reflexivity.
    + intros _. exists (messages (ui eng)), (trim t). auto.
    + intros m Hm' Hrole. apply in_app_or in Hm' as [Hold | [<- | []]].
      * exact (Htrim m Hold Hrole).
      * exact (trim_trimmed t Hne).
    + left; reflexivity.
  - rewrite Hf in Hslot.
    destruct (loading (ui eng)) eqn:Hbusy; [|discriminate Hslot].
    cbn in Hpar, Hslot.
    assert (Hrest : rest = []) by (destruct rest; [reflexivity | discriminate]).
    split; unfold slot_invariant; rewrite ?Hm, ?Hl, ?Hf', ?Hrest; cbn.
    + reflexivity.
    + apply alternating_snoc; [exact Halt|].
      unfold role_at. now rewrite Hpar.
    + rewrite even_snoc, Hpar. reflexivity.
    + discriminate.
    + intros m Hm' Hrole. apply in_app_or in Hm' as [Hold | [<- | []]].
      * exact (Htrim m Hold Hrole).
      * discriminate Hrole.
    + destruct He as [He | [He _]].
      * rewrite He. destruct Herr as [E | [E _]]; [left; exact E | discriminate].
      * right. split; [reflexivity|].
        exists (messages (ui eng)). rewrite He. reflexivity.
Qed.

Lemma reachable_coherent (eng : Engine) : reachable eng -> coherent eng.
Proof.
  induction 1 as [| eng ev _ IH | eng t _ IH].
  - exact coherent_boot.
  - exact (coherent_transition _ _ IH (step_transition eng ev)).
  - exact (coherent_transition _ _ IH (submit_transition eng (Some t))).
Qed.

Lemma run_extends (evs : list Event) (eng : Engine) :
  exists suffix,
    messages (ui (run eng evs)) = messages (ui eng) ++ suffix /\
    length suffix <= length evs.
Proof.
  revert eng; induction evs as [|ev evs IH]; intros eng.
  - exists []. cbn. now rewrite app_nil_r.
  - change (Conversation.run API_URL sessionId JSON_parse JSON_stringify
              eng (ev :: evs))
      with (run (step eng ev) evs).
    destruct (IH (step eng ev)) as (suffix & E & Hlen). rewrite E.
    destruct (step_transition eng ev) as [Hm _ _ _
                 | t _ _ Hm _ _ _ _
                 | r rest reply _ _ Hm _ _ _]; rewrite Hm.
    + exists suffix. split; [reflexivity | cbn; lia].
    + eexists. rewrite <- app_assoc. split; [reflexivity | cbn; lia].
    + eexists. rewrite <- app_assoc. split; [reflexivity | cbn; lia].
Qed.

End WithPlatform.

End LogFacts.

Module EngineProperties.
Import Extractor Conversation ConversationFacts Log View LogFacts.

Section WithPlatform.

Variable API_URL : jsstring.
Variable sessionId : jsstring.
Variable JSON_parse : jsstring -> completion JSONValue.
Variable JSON_stringify : JSONValue -> jsstring.

Local Abbreviation sendMessage := (sendMessage API_URL sessionId JSON_stringify).
Local Abbreviation onKeyDown := (onKeyDown API_URL sessionId JSON_stringify).
Local Abbreviation step := (step API_URL sessionId JSON_parse JSON_stringify).
Local Abbreviation run := (run API_URL sessionId JSON_parse JSON_stringify).
Local Abbreviation submit := (submit API_URL sessionId JSON_stringify).
Local Abbreviation reachable :=
  (reachable API_URL sessionId JSON_parse JSON_stringify).
Local Abbreviation post := (post API_URL sessionId JSON_stringify).

(** X1. In every state the component reaches, the log alternates
    strictly: user messages at the even positions, assistant messages at
    the odd ones; its length is odd exactly while a call is pending. *)
Theorem log_alternates (eng : Engine) :
  reachable eng ->
  alternating (messages (ui eng)) /\
  Nat.odd (length (messages (ui eng))) = loading (ui eng).
Proof.
  intros H.
  destruct (reachable_coherent API_URL sessionId JSON_parse JSON_stringify eng H)
    as [_ Halt Hpar _ _ _].
  split; [exact Halt|].
  rewrite <- Nat.negb_even, Hpar. apply negb_involutive.
Qed.

(** X2. No sequence of events removes, reorders or rewrites a message:
    the log after the events is the log before them followed by at most
    one new message per event. *)
Theorem log_append_only (eng : Engine) (evs : list Event) :
  exists suffix,
    messages (ui (run eng evs)) = messages (ui eng) ++ suffix /\
    length suffix <= length evs.
Proof. exact (run_extends API_URL sessionId JSON_parse JSON_stringify evs eng). Qed.

(** X3. In every state the component reaches, an error banner is shown
    only while no call is pending, and its text is the content of the last
    message of the log, which is an assistant message. *)
Theorem error_banner_is_last_reply (eng : Engine) (text : jsstring) :
  reachable eng ->
  error_banner (ui eng) = Some text ->
  loading (ui eng) = false /\
  exists earlier,
    messages (ui eng)
      = earlier ++ [{| role := assistant; content := text |}].
Proof.
  intros H Hb.
  destruct (reachable_coherent API_URL sessionId JSON_parse JSON_stringify eng H)
    as [_ _ _ _ _ Herr].
  unfold error_banner in Hb.
  destruct (errorText (ui eng)) as [|c rest] eqn:E; [discriminate Hb|].
  inversion Hb; subst text.
  destruct Herr as [Hnil | [Hl Hlast]]; [discriminate Hnil|].
  split; assumption.
Qed.

(** X4. In every state the component reaches with a call pending, exactly
    one request is in flight: a POST to the endpoint, declared as JSON,
    whose body is [JSON.stringify] of the session identifier and the text
    of the last message of the log, a trimmed user message. *)
Theorem pending_request_is_last_message (eng : Engine) :
  reachable eng ->
  loading (ui eng) = true ->
  exists earlier text,
    messages (ui eng) = earlier ++ [{| role := user; content := text |}] /\
    trimmed text /\
    in_flight eng =
      [{| url := API_URL;
          method := js "POST";
          headers := [(js "Content-Type", js "application/json")];
          body := JSON_stringify
                    (JObject [(js "session", JString sessionId);
                              (js "message", JString text)]) |}].
Proof.
  intros H Hl.
  destruct (reachable_coherent API_URL sessionId JSON_parse JSON_stringify eng H)
    as [_ _ _ Hreq Htrim _].
  destruct (Hreq Hl) as (earlier & text & Hm & Hf).
  exists earlier, text. repeat split; auto.
  apply (Htrim {| role := user; content := text |}); [|reflexivity].
  rewrite Hm. apply in_or_app. right. left. reflexivity.
Qed.

(** X5. In every state the component reaches, every user message of the
    log is non-empty and neither begins nor ends with white space. *)
Theorem user_messages_trimmed (eng : Engine) (m : Message) :
  reachable eng ->
  In m (messages (ui eng)) ->
  role m = user ->
  trimmed (content m).
Proof.
  intros H.
  destruct (reachable_coherent API_URL sessionId JSON_parse JSON_stringify eng H)
    as [_ _ _ _ Htrim _].
  exact (Htrim m).
Qed.

(** X6. From every state the component reaches, the settling of the
    call, however it ends, leaves no call pending and none in flight; the
    next text that is not blank is then dispatched, and its dispatch
    clears the error text. *)
Theorem engine_recovers (eng : Engine) (outcome : FetchOutcome) (t : jsstring) :
  reachable eng ->
  trim t <> [] ->
  let idle := step eng (Settled outcome) in
  loading (ui idle) = false /\
  in_flight idle = [] /\
  in_flight (submit idle (Some t)) = [post (trim t)] /\
  loading (ui (submit idle (Some t))) = true /\
  errorText (ui (submit idle (Some t))) = [].
Proof.
  intros H Ht idle.
  assert (Hidle : reachable idle) by (apply reachable_step; exact H).
  assert (Hslot := @reachable_invariant API_URL sessionId JSON_parse
                     JSON_stringify idle Hidle).
  assert (Hl : loading (ui idle) = false).
  { unfold idle. cbn [Conversation.step].
    assert (Hs := @reachable_invariant API_URL sessionId JSON_parse
                    JSON_stringify eng H).
    unfold slot_invariant in Hs.
    destruct (in_flight eng) as [|r rest].
    - destruct (loading (ui eng)); [discriminate Hs | reflexivity].
    - cbn [ui].
      destruct (@settled_state JSON_parse JSON_stringify outcome (ui eng))
        as (reply & _ & Hlo & _).
      exact Hlo. }
  assert (Hf : in_flight idle = []).
  { unfold slot_invariant in Hslot. rewrite Hl in Hslot.
    destruct (in_flight idle); [reflexivity | discriminate]. }
  split; [exact Hl|]. split; [exact Hf|].
  unfold Conversation.submit.
  rewrite (@sendMessage_dispatched API_URL sessionId JSON_stringify (ui idle)
             (Some t) Ht Hl).
  unfold perform. cbn [in_flight request updates ui]. rewrite Hf.
  repeat split.
Qed.

(** X7. The send button is disabled exactly when a click on it (or Enter
    without Shift in the text area) would do nothing; when it is enabled,
    the click posts the trimmed draft. *)
Theorem send_button_matches_guard (st : State) :
  (send_disabled st = true <-> sendMessage st None = nothing) /\
  (send_disabled st = true <->
   forall shift ctrl alt meta,
     snd (onKeyDown st {| key := js "Enter"; shiftKey := shift;
                          ctrlKey := ctrl; altKey := alt; metaKey := meta |})
     = nothing) /\
  (send_disabled st = false ->
   request (sendMessage st None) = Some (post (trim (input st)))).
Proof.
  assert (Hguard : send_disabled st = true <-> sendMessage st None = nothing).
  { unfold send_disabled, Conversation.sendMessage. cbn [textSource].
    rewrite orb_comm.
    destruct (Nat.eqb (length (trim (input st))) 0 || loading st);
      split; intros H; try reflexivity; discriminate H. }
  split; [exact Hguard|]. split.
  - rewrite Hguard. split.
    + intros H shift ctrl alt meta. unfold Conversation.onKeyDown.
      destruct (_ && _); cbn [snd]; [exact H | reflexivity].
    + intros H. exact (H false false false false).
  - unfold send_disabled, Conversation.sendMessage. cbn [textSource].
    rewrite orb_comm.
    destruct (Nat.eqb (length (trim (input st))) 0 || loading st);
      [discriminate | reflexivity].
Qed.

(** X8. In every state the component reaches, the welcome screen with
    the suggested prompts is shown only while no call is pending or in
    flight; the "Thinking" bubble is shown exactly while a call is
    pending, and the text area says "Waiting for reply..." exactly
    then. *)
Theorem pending_is_visible (eng : Engine) (loaderDots : jsstring) :
  reachable eng ->
  (hero_shown (ui eng) = true ->
   loading (ui eng) = false /\ in_flight eng = []) /\
  thinking_bubble (ui eng) loaderDots
    = (if loading (ui eng) then Some (js "Thinking" ++ loaderDots) else None) /\
  (placeholder (ui eng) = js "Waiting for reply..." <->
   loading (ui eng) = true).
Proof.
  intros H.
  destruct (reachable_coherent API_URL sessionId JSON_parse JSON_stringify eng H)
    as [Hslot _ Hpar _ _ _].
  unfold slot_invariant in Hslot.
  unfold thinking_bubble, placeholder, hero_shown.
  destruct (messages (ui eng)) as [|m log]; cbn in *.
  - destruct (loading (ui eng)); [discriminate Hpar|].
    split; [|split; [reflexivity | split; discriminate]].
    intros _. split; [reflexivity|].
    destruct (in_flight eng); [reflexivity | discriminate].
  - split; [discriminate|]. split; [reflexivity|].
    destruct (loading (ui eng)); split; intros E;
      try reflexivity; discriminate E.
Qed.

End WithPlatform.

End EngineProperties.

(** ** Escaping and rendering *)

Module MarkupFacts.
Import Extractor Render RenderFacts Markup.

Lemma entity_cases (c : unit16) :
  (is_special c = false /\ entity c = [c]) \/
  (c = 0x26%N /\ entity c = js "&amp;") \/
  (c = 0x3C%N /\ entity c = js "&lt;") \/
  (c = 0x3E%N /\ entity c = js "&gt;") \/
  (c = 0x22%N /\ entity c = js "&quot;") \/
  (c = 0x27%N /\ entity c = js "&#039;").
Proof.
  unfold entity, is_special.
  destruct (N.eqb_spec c 0x26) as [->|H1]; [auto|].
  destruct (N.eqb_spec c 0x3C) as [->|H2]; [auto 6|].
  destruct (N.eqb_spec c 0x3E) as [->|H3]; [auto 6|].
  destruct (N.eqb_spec c 0x22) as [->|H4]; [auto 7|].
  destruct (N.eqb_spec c 0x27) as [->|H5]; [auto 8|].
  left. auto.
Qed.

Lemma entity_no_delimiter (c x : unit16) :
  In x (entity c) -> is_delimiter x = false.
Proof.
  destruct (entity_cases c)
    as [[Hs ->] | [[-> ->] | [[-> ->] | [[-> ->] | [[-> ->] | [-> ->]]]]]].
  - intros [<- | []]. unfold is_special in Hs. unfold is_delimiter.
    destruct (N.eqb c 0x26); [discriminate Hs | exact Hs].
  - cbn. intuition (subst; reflexivity).
  - cbn. intuition (subst; reflexivity).
  - cbn. intuition (subst; reflexivity).
  - cbn. intuition (subst; reflexivity).
  - cbn. intuition (subst; reflexivity).
Qed.

Lemma read_entity_entity (c : unit16) (rest : jsstring) :
  read_entity (entity c ++ rest) = Some (c, rest).
Proof.
  destruct (entity_cases c)
    as [[Hs ->] | [[-> ->] | [[-> ->] | [[-> ->] | [[-> ->] | [-> ->]]]]]];
    try reflexivity.
  cbn. unfold is_special in Hs.
  destruct (N.eqb c 0x26); [discriminate Hs | reflexivity].
Qed.

Lemma escaped_injective (a b : jsstring) : escaped a = escaped b -> a = b.
Proof.
  revert b; induction a as [|x a IH]; intros [|y b] H; cbn in H.
  - reflexivity.
  - apply (f_equal read_entity) in H.
    rewrite read_entity_entity in H. discriminate H.
  - apply (f_equal read_entity) in H.
    rewrite read_entity_entity in H. discriminate H.
  - apply (f_equal read_entity) in H.
    rewrite !read_entity_entity in H. inversion H; subst.
    f_equal. apply IH. assumption.
Qed.

(** X9. Whatever the input, the text [escapeHtml] returns contains no
    [<], no [>], no double quote and no apostrophe: nothing of the input
    can open a tag or close an attribute. *)
Theorem escapeHtml_no_delimiter (raw : jsstring) (x : unit16) :
  In x (escapeHtml raw) -> is_delimiter x = false.
Proof.
  rewrite escapeHtml_escaped. unfold escaped.
  intros H. apply in_flat_map in H as (c & _ & Hx).
  exact (entity_no_delimiter c x Hx).
Qed.

(** X10. [escapeHtml] loses nothing: two different texts are never
    escaped to the same text. *)
Theorem escapeHtml_injective (a b : jsstring) :
  escapeHtml a = escapeHtml b -> a = b.
Proof. rewrite !escapeHtml_escaped. apply escaped_injective. Qed.

Lemma escaped_length (s : jsstring) : length s <= length (escaped s).
Proof.
  unfold escaped.
  induction s as [|c s IH]; cbn [flat_map length]; [lia|].
  rewrite length_app.
  destruct (entity_cases c)
    as [[_ E] | [[_ E] | [[_ E] | [[_ E] | [[_ E] | [_ E]]]]]];
    rewrite E; cbn [length js map list_ascii_of_string]; lia.
Qed.

Lemma escaped_fixed (s : jsstring) :
  escaped s = s <-> forallb (fun c => negb (is_special c)) s = true.
Proof.
  induction s as [|c s IH]; cbn; [tauto|].
  split.
  - intros H. assert (Hlen := escaped_length s).
    destruct (entity_cases c)
      as [[Hs E] | [[-> E] | [[-> E] | [[-> E] | [[-> E] | [-> E]]]]]];
      rewrite E in H;
      try (apply (f_equal (@length unit16)) in H;
           rewrite length_app in H; cbn in H; unfold escaped in Hlen; lia).
    rewrite Hs. cbn. apply IH. inversion H as [H']. now rewrite H'.
  - intros H. apply andb_true_iff in H as [Hc Hs].
    apply negb_true_iff in Hc.
    destruct (entity_cases c)
      as [[_ E] | [[-> _] | [[-> _] | [[-> _] | [[-> _] | [-> _]]]]]];
      try discriminate Hc.
    rewrite E. cbn. f_equal. apply IH. exact Hs.
Qed.

(** X11. [escapeHtml] works character by character: the escape of a
    concatenation is the concatenation of the escapes, the result is
    never shorter than the input, and it is the input itself exactly when
    the input holds none of the five special characters. *)
Theorem escapeHtml_by_character (a b : jsstring) :
  escapeHtml (a ++ b) = escapeHtml a ++ escapeHtml b /\
  length a <= length (escapeHtml a) /\
  (escapeHtml a = a <-> forallb (fun c => negb (is_special c)) a = true).
Proof.
  rewrite !escapeHtml_escaped. split; [apply flat_map_app|]. split.
  - apply escaped_length.
  - apply escaped_fixed.
Qed.

(** X12. When the sanitizer is available, what [renderMarkdown] returns
    is either something the sanitizer returned or the escaped
    preformatted block: the output of the formatter is never returned
    unsanitized. *)
Theorem renderMarkdown_sanitized
    (caps : Capabilities) (mdText : jsstring)
    (sanitize : jsstring -> completion jsstring) (out : jsstring) :
  purifyReady caps = true ->
  window_DOMPurify caps = Some sanitize ->
  renderMarkdown caps mdText = Normal out ->
  (exists dirty, sanitize dirty = Normal out) \/ out = preformatted mdText.
Proof.
  destruct caps as [mr wm pr wp]; unfold renderMarkdown;
    cbn [markedReady window_marked purifyReady window_DOMPurify].
  intros -> [= ->].
  destruct mr, wm as [p|]; cbn [bind try_catch];
    try destruct (p mdText) as [parsed|e]; cbn [bind try_catch];
    match goal with
    | |- context [sanitize ?d] =>
        destruct (sanitize d) as [o|e'] eqn:E; cbn [bind try_catch];
        intros [= <-]; [left; exists d; exact E | right; reflexivity]
    | |- _ => intros [= <-]; right; reflexivity
    end.
Qed.

Lemma renderMarkdown_sanitized_witness :
  (exists dirty, reserialize dirty = Normal (js "<pre>hi" ++ [0x0A%N] ++ js "</pre>")) \/
  js "<pre>hi" ++ [0x0A%N] ++ js "</pre>" = preformatted (js "hi").
Proof.
  apply (renderMarkdown_sanitized purify_only (js "hi") reserialize
           (js "<pre>hi" ++ [0x0A%N] ++ js "</pre>"));
    reflexivity.
Defined.

Lemma escapeHtml_no_delimiter_witness :
  is_delimiter 0x26%N = false.
Proof.
  apply (escapeHtml_no_delimiter (js "<a href='x'>") 0x26%N).
  cbn. tauto.
Defined.

Lemma escapeHtml_injective_witness : js "a<b" = js "a<b".
Proof. apply (escapeHtml_injective (js "a<b") (js "a<b")). reflexivity. Defined.

(** X13. Wrapping a payload as the first element of any number of
    nested arrays, whatever follows it in each, does not change what
    [extractText] finds. *)
Theorem extractText_through_arrays
    (levels : list (list JSONValue)) (payload : JSONValue) :
  extractText (nest levels payload) = extractText payload.
Proof.
  induction levels as [|following outer IH]; [reflexivity|].
  cbn [nest]. exact IH.
Qed.

End MarkupFacts.

(** ** The session identifier, continued *)

Module IdentityProperties.
Import Identity IdentityFacts Hex.

Lemma hex_of_byte (b : Z) :
  is_byte b ->
  exists h l, toHex b = [h; l] /\ (16 * digit_value h + digit_value l = b)%Z.
Proof.
  intros Hb.
  assert (H : reads_back b = true)
    by (revert b Hb; apply every_byte; vm_compute; reflexivity).
  unfold reads_back, byte_of_hex in H.
  destruct (@digits_of_byte b Hb) as (h & l & E & _).
  rewrite E in H. exists h, l. split; [exact E|].
  apply Z.eqb_eq. exact H.
Qed.

Lemma masked_bits (b : Z) :
  is_byte b ->
  Z.land (ToUint8 (Z.lor (Z.land b 0x0f) 0x40)) 0x0f = Z.land b 0x0f /\
  Z.land (ToUint8 (Z.lor (Z.land b 0x3f) 0x80)) 0x3f = Z.land b 0x3f.
Proof.
  intros Hb.
  assert (H : keeps_bits b = true)
    by (revert b Hb; apply every_byte; vm_compute; reflexivity).
  unfold keeps_bits in H. apply andb_true_iff in H as [H1 H2].
  split; apply Z.eqb_eq; assumption.
Qed.

Ltac digits_of b :=
  let h := fresh "h" in
  let l := fresh "l" in
  let E := fresh "E" in
  let V := fresh "V" in
  destruct (hex_of_byte b ltac:(assumption)) as (h & l & E & V);
  rewrite E in *; clear E.

(** Sixteen elements can be read back from their formatting. *)
Lemma format_injective (bs bs' : list Z) :
  length bs = 16 -> length bs' = 16 ->
  Forall is_byte bs -> Forall is_byte bs' ->
  format bs = format bs' -> bs = bs'.
Proof.
  intros L L' F F' H.
  do 16 (destruct bs as [|? bs]; [discriminate L|]).
  destruct bs; [|discriminate L].
  do 16 (destruct bs' as [|? bs']; [discriminate L'|]).
  destruct bs'; [|discriminate L'].
  clear L L'.
  repeat match goal with
         | F : Forall _ (_ :: _) |- _ => inversion F; clear F; subst
         | F : Forall _ [] |- _ => clear F
         end.
  unfold format in H. cbn [map concat] in H.
  repeat match goal with
         | Hb : is_byte ?b |- _ => digits_of b; clear Hb
         end.
  cbn [app slice slice_from skipn firstn Nat.sub js list_ascii_of_string map]
    in H.
  inversion H; subst. reflexivity.
Qed.

Lemma is_byte_ToUint8 (v : Z) : is_byte (ToUint8 v).
Proof. apply ToUint8_range. Qed.

(** X14. On the [getRandomValues] path the identifier keeps every random
    bit the two masks let through: two runs give the same identifier
    exactly when the sixteen elements agree, apart from the high four
    bits of element 6 and the high two bits of element 8. *)
Theorem sessionId_keeps_random_bits (f g : nat -> Z) :
  sessionId (GetRandomValues f) = sessionId (GetRandomValues g) <->
  (forall i, i < 16 -> i <> 6 -> i <> 8 -> ToUint8 (f i) = ToUint8 (g i)) /\
  Z.land (ToUint8 (f 6)) 0x0f = Z.land (ToUint8 (g 6)) 0x0f /\
  Z.land (ToUint8 (f 8)) 0x3f = Z.land (ToUint8 (g 8)) 0x3f.
Proof.
  unfold sessionId, new_Uint8Array, getRandomValues.
  cbn [repeat length seq map store load nth].
  split.
  - intros H. apply format_injective in H;
      try reflexivity;
      try (repeat constructor; apply is_byte_ToUint8).
    inversion H as [[H0 H1 H2 H3 H4 H5 H6 H7 H8 H9 H10 H11 H12 H13 H14 H15]].
    split; [|split].
    + intros i Hi Hi6 Hi8.
      do 16 (destruct i as [|i]; [assumption || contradiction|]). lia.
    + destruct (masked_bits _ (is_byte_ToUint8 (f 6))) as [<- _].
      destruct (masked_bits _ (is_byte_ToUint8 (g 6))) as [<- _].
      now rewrite H6.
    + destruct (masked_bits _ (is_byte_ToUint8 (f 8))) as [_ <-].
      destruct (masked_bits _ (is_byte_ToUint8 (g 8))) as [_ <-].
      now rewrite H8.
  - intros (H & H6 & H8).
    assert (E6 : Z.lor (Z.land (ToUint8 (f 6)) 0x0f) 0x40
                 = Z.lor (Z.land (ToUint8 (g 6)) 0x0f) 0x40) by now rewrite H6.
    assert (E8 : Z.lor (Z.land (ToUint8 (f 8)) 0x3f) 0x80
                 = Z.lor (Z.land (ToUint8 (g 8)) 0x3f) 0x80) by now rewrite H8.
    rewrite E6, E8.
    rewrite (H 0), (H 1), (H 2), (H 3), (H 4), (H 5), (H 7), (H 9), (H 10),
      (H 11), (H 12), (H 13), (H 14), (H 15) by lia.
    reflexivity.
Qed.

Lemma floor_of_draw (x : Q) :
  (0 <= x)%Q -> (x < 1)%Q -> is_byte (Qfloor (x * 256)%Q).
Proof.
  intros H0 H1. split.
  - change 0%Z with (Qfloor 0). apply Qfloor_resp_le. lra.
  - apply Z.lt_nge. intros Hge.
    assert (Hq : (inject_Z 256 <= inject_Z (Qfloor (x * 256)))%Q)
      by (rewrite <- Zle_Qle; exact Hge).
    assert (Hf := Qfloor_le (x * 256)%Q).
    assert (E : (inject_Z 256 == 256)%Q) by reflexivity.
    lra.
Qed.

(** X15. On the [Math.random] path, with every draw in the range from 0
    (included) to 1 (excluded), element [i] of the array is
    floor(256 * draw i), a value from 0 to 255 that the array stores
    without wrapping: each of the sixteen draws is used once, in order. *)
Theorem Math_random_fills_bytes (draw : nat -> Q) :
  (forall i, i < 16 -> (0 <= draw i)%Q /\ (draw i < 1)%Q) ->
  fill_with_Math_random draw (new_Uint8Array 16)
    = map (fun i => Qfloor (draw i * 256)%Q) (seq 0 16) /\
  Forall is_byte (fill_with_Math_random draw (new_Uint8Array 16)).
Proof.
  intros H.
  assert (E : fill_with_Math_random draw (new_Uint8Array 16)
              = map (fun i => Qfloor (draw i * 256)%Q) (seq 0 16)).
  { unfold fill_with_Math_random, new_Uint8Array.
    cbn [repeat seq fold_left store map].
    repeat match goal with
           | |- context [ToUint8 (Qfloor (draw ?i * 256)%Q)] =>
               let B := fresh "B" in
               assert (B : is_byte (Qfloor (draw i * 256)%Q))
                 by (apply floor_of_draw; apply H; lia);
               unfold ToUint8 at 1;
               rewrite (Z.mod_small _ 256 B); clear B
           end.
    reflexivity. }
  split; [exact E|].
  rewrite E. apply Forall_forall. intros b Hb.
  apply in_map_iff in Hb as (i & <- & Hi). apply in_seq in Hi.
  apply floor_of_draw; apply H; lia.
Qed.

Lemma Math_random_fills_bytes_witness :
  fill_with_Math_random (fun i => (Z.of_nat i # 17)%Q) (new_Uint8Array 16)
  = map (fun i => Qfloor ((Z.of_nat i # 17) * 256)%Q) (seq 0 16).
Proof.
  apply (Math_random_fills_bytes (fun i => (Z.of_nat i # 17)%Q)).
  intros i Hi. unfold Qle, Qlt. cbn. lia.
Defined.

End IdentityProperties.

(** ** The reply, whatever the declared content type *)

Module ReplyProperties.
Import Extractor Conversation ConversationFacts.

Section WithPlatform.

Variable JSON_parse : jsstring -> completion JSONValue.
Variable JSON_stringify : JSONValue -> jsstring.

Local Abbreviation sendMessage_settled :=
  (sendMessage_settled JSON_parse JSON_stringify).

(** X16. For a response with a success status whose body parses as JSON
    and holds a string [extractText] finds, the assistant message is that
    string whether or not the content type declares JSON: a mislabelled
    response is answered like a correctly labelled one. *)
Theorem reply_ignores_content_type
    (r : Response) (raw : jsstring) (data : JSONValue) (s : jsstring) :
  ok r = true ->
  payload r = Normal raw ->
  JSON_parse raw = Normal data ->
  extractText data = Some s ->
  sendMessage_settled (Resolved r)
    = [AppendMessage {| role := assistant; content := s |};
       SetLoading false].
Proof.
  intros Hok Hp Hj Hx.
  unfold Conversation.sendMessage_settled, Conversation.markdownReply,
    response_json, response_text.
  cbn [bind]. rewrite Hok, Hp. cbn [negb bind].
  destruct (includes _ _); rewrite Hj; cbn [bind try_catch];
    rewrite Hx; reflexivity.
Qed.

End WithPlatform.

End ReplyProperties.

(** ** The loader dots *)

Module LoaderFacts.
Import Loader.

Lemma repeat_snoc {A} (x : A) (n : nat) : repeat x n ++ [x] = repeat x (S n).
Proof.
  induction n as [|n IH]; [reflexivity|].
  cbn. now rewrite IH.
Qed.

Lemma ticks_from_empty (q r : nat) :
  r < 4 -> Nat.iter (4 * q + r) tick [] = repeat 0x2E%N r.
Proof.
  induction q as [|q IH]; intros Hr.
  - do 4 (destruct r as [|r]; [reflexivity|]). lia.
  - replace (4 * S q + r) with (S (S (S (S (4 * q + r))))) by lia.
    cbn [Nat.iter nat_rect]. unfold Nat.iter in IH. rewrite (IH Hr).
    do 4 (destruct r as [|r]; [reflexivity|]). lia.
Qed.

(** X17. Whatever the dots were, once the effect has run with [loading]
    false and then with [loading] true, after [n] ticks of the interval
    the dots are [n mod 4] full stops: they grow from none to three and
    start over, and are never more than three. *)
Theorem loaderDots_cycle (before : jsstring) (idle_ticks n : nat) :
  loaderDots_effect true n (loaderDots_effect false idle_ticks before)
    = repeat 0x2E%N (n mod 4) /\
  length (loaderDots_effect true n (loaderDots_effect false idle_ticks before))
    <= 3.
Proof.
  assert (E : loaderDots_effect true n (loaderDots_effect false idle_ticks before)
              = repeat 0x2E%N (n mod 4)).
  { unfold loaderDots_effect. cbn [negb].
    assert (Hr : n mod 4 < 4) by (apply Nat.mod_upper_bound; discriminate).
    assert (En := ticks_from_empty (n / 4) (n mod 4) Hr).
    rewrite <- (Nat.div_mod_eq n 4) in En. exact En. }
  split; [exact E|].
  rewrite E, repeat_length.
  assert (n mod 4 < 4) by (apply Nat.mod_upper_bound; discriminate). lia.
Qed.

End LoaderFacts.

(** ** The script tags *)

Module ScriptsFacts.
Import Scripts.

Lemma listen_keeps_src (wanted : jsstring) (f : Listener) (scripts : list Script) :
  map src (listen_on_first wanted f scripts) = map src scripts.
Proof.
  induction scripts as [|s rest IH]; cbn; [reflexivity|].
  destruct (has_src wanted s); cbn; [reflexivity | now rewrite IH].
Qed.

Lemma count_by_src (wanted : jsstring) (scripts : list Script) :
  count_src wanted scripts
    = length (filter (fun u => JsString.eqb u wanted) (map src scripts)).
Proof.
  unfold count_src.
  induction scripts as [|s rest IH]; cbn; [reflexivity|].
  unfold has_src at 1. destruct (JsString.eqb (src s) wanted); cbn; now rewrite IH.
Qed.

Lemma find_count (wanted : jsstring) (scripts : list Script) :
  match find (has_src wanted) scripts with
  | Some _ => 1 <= count_src wanted scripts
  | None => count_src wanted scripts = 0
  end.
Proof.
  unfold count_src.
  induction scripts as [|s rest IH]; cbn; [reflexivity|].
  destruct (has_src wanted s); cbn; [lia | exact IH].
Qed.

Lemma addScript_src (wanted : jsstring) (onLoad : option Listener)
    (scripts : list Script) :
  map src (addScript wanted onLoad scripts)
    = match find (has_src wanted) scripts with
      | Some _ => map src scripts
      | None => map src scripts ++ [wanted]
      end.
Proof.
  unfold addScript.
  destruct (find (has_src wanted) scripts).
  - destruct onLoad; [apply listen_keeps_src | reflexivity].
  - rewrite map_app. reflexivity.
Qed.

Lemma addScript_found (wanted : jsstring) (onLoad : option Listener)
    (scripts : list Script) :
  find (has_src wanted) (addScript wanted onLoad scripts) <> None.
Proof.
  assert (H := find_count wanted (addScript wanted onLoad scripts)).
  destruct (find (has_src wanted) (addScript wanted onLoad scripts));
    [discriminate|].
  rewrite count_by_src, addScript_src in H.
  assert (H0 := find_count wanted scripts).
  destruct (find (has_src wanted) scripts).
  - rewrite count_by_src in H0. lia.
  - rewrite filter_app, length_app in H. cbn in H.
    rewrite (proj2 (eqb_eq wanted wanted) eq_refl) in H. cbn in H. lia.
Qed.

Lemma addScript_count (wanted : jsstring) (onLoad : option Listener)
    (scripts : list Script) :
  count_src wanted (addScript wanted onLoad scripts)
    = Nat.max 1 (count_src wanted scripts).
Proof.
  rewrite !count_by_src, addScript_src.
  assert (H := find_count wanted scripts). rewrite count_by_src in H.
  destruct (find (has_src wanted) scripts).
  - lia.
  - rewrite filter_app, length_app, H. cbn.
    rewrite (proj2 (eqb_eq wanted wanted) eq_refl). reflexivity.
Qed.

Lemma addScript_count_other (wanted other : jsstring)
    (onLoad : option Listener) (scripts : list Script) :
  other <> wanted ->
  count_src other (addScript wanted onLoad scripts) = count_src other scripts.
Proof.
  intros Hne. rewrite !count_by_src, addScript_src.
  destruct (find (has_src wanted) scripts); [reflexivity|].
  rewrite filter_app, length_app. cbn.
  destruct (JsString.eqb wanted other) eqn:E.
  - apply eqb_eq in E. congruence.
  - cbn. lia.
Qed.

Lemma addScript_src_present (wanted : jsstring) (onLoad : option Listener)
    (scripts : list Script) :
  1 <= count_src wanted scripts ->
  map src (addScript wanted onLoad scripts) = map src scripts.
Proof.
  intros H. rewrite addScript_src.
  assert (H0 := find_count wanted scripts).
  destruct (find (has_src wanted) scripts); [reflexivity | lia].
Qed.

(** X18. [addScript] never gives a [src] a second script element: after
    the call exactly one more element carries the [src] when none did,
    and as many as before otherwise; the elements of every other [src]
    are as many as before; and a second call for the same [src] adds no
    element at all. *)
Theorem addScript_adds_once
    (wanted : jsstring) (onLoad again : option Listener)
    (scripts : list Script) :
  count_src wanted (addScript wanted onLoad scripts)
    = Nat.max 1 (count_src wanted scripts) /\
  (forall other,
      other <> wanted ->
      count_src other (addScript wanted onLoad scripts)
        = count_src other scripts) /\
  map src (addScript wanted again (addScript wanted onLoad scripts))
    = map src (addScript wanted onLoad scripts).
Proof.
  split; [apply addScript_count|]. split.
  - intros other Hne. apply addScript_count_other. exact Hne.
  - apply addScript_src_present. rewrite addScript_count. lia.
Qed.

(** X19. The effect that loads the two libraries leaves one script
    element for each of them when the document had none (both
    asynchronous, in that order) and never more than the document already
    had otherwise; run a second time, it adds no element. *)
Theorem load_libraries_idempotent (scripts : list Script) :
  map src (load_libraries (load_libraries scripts))
    = map src (load_libraries scripts) /\
  count_src marked_url (load_libraries scripts)
    = Nat.max 1 (count_src marked_url scripts) /\
  count_src purify_url (load_libraries scripts)
    = Nat.max 1 (count_src purify_url scripts) /\
  map src (load_libraries []) = [marked_url; purify_url] /\
  map async (load_libraries []) = [true; true].
Proof.
  assert (Hpm : purify_url <> marked_url) by discriminate.
  assert (Hmp : marked_url <> purify_url) by discriminate.
  assert (Cm : count_src marked_url (load_libraries scripts)
               = Nat.max 1 (count_src marked_url scripts)).
  { unfold load_libraries.
    rewrite (addScript_count_other purify_url marked_url _ _ Hmp).
    apply addScript_count. }
  assert (Cp : count_src purify_url (load_libraries scripts)
               = Nat.max 1 (count_src purify_url scripts)).
  { unfold load_libraries. rewrite addScript_count.
    rewrite (addScript_count_other marked_url purify_url _ _ Hpm).
    reflexivity. }
  split; [|repeat split; assumption].
  unfold load_libraries at 1.
  rewrite addScript_src_present.
  - apply addScript_src_present. rewrite Cm. lia.
  - rewrite (addScript_count_other marked_url purify_url _ _ Hpm), Cp. lia.
Qed.

End ScriptsFacts.

(** ** The further properties at concrete inputs *)

Module EngineExamples.
Import Extractor Conversation ConversationFacts Log View Demo
  EngineProperties ReplyProperties.

Lemma waiting_reachable :
  reachable endpoint session_id parse stringify waiting.
Proof.
  apply (@reachable_step endpoint session_id parse stringify
           (typing question) ClickSend).
  apply (@reachable_step endpoint session_id parse stringify
           (typing []) (Change question)).
  apply reachable_boot.
Qed.

Lemma log_alternates_witness :
  alternating (messages (ui waiting)) /\
  Nat.odd (length (messages (ui waiting))) = loading (ui waiting).
Proof.
  exact (log_alternates endpoint session_id parse stringify waiting
           waiting_reachable).
Defined.

Lemma error_banner_is_last_reply_witness :
  loading (ui (step endpoint session_id parse stringify waiting
                 (Settled (Rejected (mkError (js "network down")))))) = false /\
  exists earlier,
    messages (ui (step endpoint session_id parse stringify waiting
                    (Settled (Rejected (mkError (js "network down"))))))
    = earlier ++ [{| role := assistant;
                     content := apology ++ js "network down" |}].
Proof.
  apply (error_banner_is_last_reply endpoint session_id parse stringify
           (step endpoint session_id parse stringify waiting
              (Settled (Rejected (mkError (js "network down")))))
           (apology ++ js "network down")).
  - apply reachable_step. exact waiting_reachable.
  - reflexivity.
Defined.

Lemma pending_request_is_last_message_witness :
  exists earlier text,
    messages (ui waiting) = earlier ++ [{| role := user; content := text |}] /\
    trimmed text /\
    in_flight waiting =
      [{| url := endpoint;
          method := js "POST";
          headers := [(js "Content-Type", js "application/json")];
          body := stringify
                    (JObject [(js "session", JString session_id);
                              (js "message", JString text)]) |}].
Proof.
  apply (pending_request_is_last_message endpoint session_id parse stringify
           waiting waiting_reachable).
  reflexivity.
Defined.

Lemma user_messages_trimmed_witness :
  trimmed (js "Tell me about your experience").
Proof.
  apply (user_messages_trimmed endpoint session_id parse stringify waiting
           {| role := user; content := js "Tell me about your experience" |}
           waiting_reachable).
  - left. reflexivity.
  - reflexivity.
Defined.

Lemma engine_recovers_witness :
  loading (ui (step endpoint session_id parse stringify waiting
                 (Settled (Rejected (mkError (js "network down")))))) = false /\
  in_flight (step endpoint session_id parse stringify waiting
               (Settled (Rejected (mkError (js "network down"))))) = [] /\
  in_flight (submit endpoint session_id stringify
               (step endpoint session_id parse stringify waiting
                  (Settled (Rejected (mkError (js "network down")))))
               (Some (js " again ")))
    = [post endpoint session_id stringify (trim (js " again "))] /\
  loading (ui (submit endpoint session_id stringify
                 (step endpoint session_id parse stringify waiting
                    (Settled (Rejected (mkError (js "network down")))))
                 (Some (js " again ")))) = true /\
  errorText (ui (submit endpoint session_id stringify
                   (step endpoint session_id parse stringify waiting
                      (Settled (Rejected (mkError (js "network down")))))
                   (Some (js " again ")))) = [].
Proof.
  apply (engine_recovers endpoint session_id parse stringify waiting
           (Rejected (mkError (js "network down"))) (js " again ")
           waiting_reachable).
  discriminate.
Defined.

Lemma pending_is_visible_witness :
  (hero_shown (ui waiting) = true ->
   loading (ui waiting) = false /\ in_flight waiting = []) /\
  thinking_bubble (ui waiting) (js "..")
    = (if loading (ui waiting) then Some (js "Thinking" ++ js "..") else None) /\
  (placeholder (ui waiting) = js "Waiting for reply..." <->
   loading (ui waiting) = true).
Proof.
  exact (pending_is_visible endpoint session_id parse stringify waiting
           (js "..") waiting_reachable).
Defined.

Lemma reply_ignores_content_type_witness :
  sendMessage_settled parse stringify (Resolved (text_response output_text))
  = [AppendMessage {| role := assistant; content := js "I have 5 years..." |};
     SetLoading false].
Proof.
  apply (reply_ignores_content_type parse stringify
           (text_response output_text) output_text
           (JObject [(js "output", JString (js "I have 5 years..."))])
           (js "I have 5 years..."));
    reflexivity.
Defined.

End EngineExamples.
